(** * barkhaus-sync: form records reconciled into a Shopify metaobject store

    Shallow embedding of the two serverless handlers of the repository,
    [api/cognito-shopify.ts] (record ingestion) and
    [api/shopify/setup-animal.ts] (schema reconciliation), together with the
    JavaScript values they manipulate, followed by the properties of the
    specification that concern them.

    Conventions of the model.
    - A JavaScript string is a [string]: a sequence of code units below 256
      (the Latin-1 range).  White space and letter case are those of
      ECMAScript restricted to that range.
    - A JavaScript number is an integer [Z]; its text is its decimal
      notation.  Fractions, infinities and NaN do not occur in the model.
    - A value is what [JSON.parse] can build, plus [undefined].  An object is
      the list of its own properties, looked up from the head.
    - An exception is a value of [exn]; code that can throw returns an
      [outcome]. *)

From Stdlib Require Import String Ascii List ZArith Bool Lia.
From Stdlib Require Import DecimalString DecimalPos.
Import ListNotations.
Set Warnings "-register-all".
Local Open Scope string_scope.
Local Open Scope list_scope.
Local Open Scope nat_scope.

(** ** Strings *)

Module JsString.

(** [String.prototype.trim] white space, in the Latin-1 range: TAB, LF, VT,
    FF, CR, SP and NBSP. *)
Definition is_ws (c : ascii) : bool :=
  let n := nat_of_ascii c in
  ((9 <=? n) && (n <=? 13)) || (n =? 32) || (n =? 160).

Fixpoint trimStart (s : string) : string :=
  match s with
  | EmptyString => EmptyString
  | String c r => if is_ws c then trimStart r else s
  end.

Fixpoint trimEnd (s : string) : string :=
  match s with
  | EmptyString => EmptyString
  | String c r =>
      match trimEnd r with
      | EmptyString => if is_ws c then EmptyString else String c EmptyString
      | r' => String c r'
      end
  end.

(** [s.trim()] *)
Definition trim (s : string) : string := trimEnd (trimStart s).

(** [s.length === 0]: the empty string. *)
Definition is_empty (s : string) : bool :=
  match s with EmptyString => true | String _ _ => false end.

(** One code unit of [toLowerCase]: A-Z and the Latin-1 capitals
    (U+00C0-U+00DE but the multiplication sign) move down by 32. *)
Definition lower_char (c : ascii) : ascii :=
  let n := nat_of_ascii c in
  if ((65 <=? n) && (n <=? 90))
     || ((192 <=? n) && (n <=? 222) && negb (n =? 215))
  then ascii_of_nat (n + 32) else c.

(** One code unit of [toUpperCase] on the letters a-z. *)
Definition upper_char (c : ascii) : ascii :=
  let n := nat_of_ascii c in
  if (97 <=? n) && (n <=? 122) then ascii_of_nat (n - 32) else c.

(** [s.toLowerCase()] *)
Fixpoint toLowerCase (s : string) : string :=
  match s with
  | EmptyString => EmptyString
  | String c r => String (lower_char c) (toLowerCase r)
  end.

(** [/^https?:\/\//.test(s)] *)
Definition is_http_url (s : string) : bool :=
  String.prefix "http://" s || String.prefix "https://" s.

Definition comma : ascii := ","%char.
Definition newline : ascii := "010"%char.

(** [s.includes(",")] *)
Fixpoint includes_comma (s : string) : bool :=
  match s with
  | EmptyString => false
  | String c r => Ascii.eqb c comma || includes_comma r
  end.

(** [s.split(",")] *)
Fixpoint split_comma (s : string) : list string :=
  match s with
  | EmptyString => [EmptyString]
  | String c r =>
      if Ascii.eqb c comma then EmptyString :: split_comma r
      else match split_comma r with
           | h :: t => String c h :: t
           | [] => [String c EmptyString]
           end
  end.

(** [s.replace(/\n+/g, "</p><p>")]: every maximal run of line feeds becomes
    one paragraph break. *)
Fixpoint replace_newlines (s : string) : string :=
  match s with
  | EmptyString => EmptyString
  | String c r =>
      if Ascii.eqb c newline then
        match r with
        | String c' _ =>
            if Ascii.eqb c' newline then replace_newlines r
            else ("</p><p>" ++ replace_newlines r)%string
        | EmptyString => "</p><p>"
        end
      else String c (replace_newlines r)
  end.

(** Decimal notation of an integer, as [String(n)] prints it. *)
Definition string_of_Z (n : Z) : string :=
  NilEmpty.string_of_int (Z.to_int n).

(** A property key that is an array index: "0", or digits that do not start
    with 0. *)
Definition digit_of (c : ascii) : option nat :=
  let n := nat_of_ascii c in
  if (48 <=? n) && (n <=? 57) then Some (n - 48) else None.

Fixpoint digits_value (acc : nat) (s : string) : option nat :=
  match s with
  | EmptyString => Some acc
  | String c r =>
      match digit_of c with
      | Some d => digits_value (10 * acc + d) r
      | None => None
      end
  end.

Definition array_index (k : string) : option nat :=
  match k with
  | EmptyString => None
  | String c r =>
      if Ascii.eqb c "0"%char then (if is_empty r then Some 0 else None)
      else digits_value 0 k
  end.

End JsString.
Import JsString.

(** ** Values, exceptions, conversions *)

Inductive value : Type :=
| JUndefined
| JNull
| JBool (b : bool)
| JNum (n : Z)
| JStr (s : string)
| JArr (items : list value)
| JObj (props : list (string * value)).

(** What the handlers can throw.  The message of the error raised by [gql] is
    kept as its two ingredients: the [errors] member of the body when it is
    truthy ([JSON.stringify(json.errors)]), the HTTP status otherwise. *)
Inductive exn : Type :=
| TypeError
| FetchRejected
| BodyNotJson
| ShopifyGraphQLError (msg : value + Z).

Inductive outcome (A : Type) : Type :=
| Ret (a : A)
| Throw (e : exn).
Arguments Ret {A} a.
Arguments Throw {A} e.

Definition bind {A B : Type} (m : outcome A) (k : A -> outcome B) : outcome B :=
  match m with
  | Ret a => k a
  | Throw e => Throw e
  end.

Declare Scope js_scope.
Delimit Scope js_scope with js.
Notation "x <- m ;; k" := (bind m (fun x => k))
  (at level 61, m at next level, right associativity) : js_scope.
Local Open Scope js_scope.

(** Own-property lookup. *)
Fixpoint assoc (k : string) (props : list (string * value)) : option value :=
  match props with
  | [] => None
  | (k', v) :: rest => if String.eqb k k' then Some v else assoc k rest
  end.

Definition has_own (props : list (string * value)) (k : string) : bool :=
  match assoc k props with Some _ => true | None => false end.

(** [v === undefined || v === null] *)
Definition nullish (v : value) : bool :=
  match v with
  | JUndefined | JNull => true
  | _ => false
  end.

(** [Array.prototype.join] with separator ",", once the text [acc] of the
    items before [l] is known; [item] gives the text of one item. *)
Section Join.
Variable item : value -> outcome string.
Fixpoint join_from (acc : string) (l : list value) : outcome string :=
  match l with
  | [] => Ret acc
  | y :: l' => t <- item y ;; join_from (acc ++ "," ++ t)%string l'
  end.
End Join.

(** [String(v)].  An array joins the texts of its items with commas, an
    [undefined] or [null] item counting as the empty text.  A plain object
    prints as "[object Object]"; when it has an own property [toString],
    which parsed data cannot make callable, the conversion finds no
    primitive and throws. *)
Fixpoint ToString (v : value) : outcome string :=
  match v with
  | JUndefined => Ret "undefined"
  | JNull => Ret "null"
  | JBool true => Ret "true"
  | JBool false => Ret "false"
  | JNum n => Ret (string_of_Z n)
  | JStr s => Ret s
  | JArr items =>
      let item (x : value) : outcome string :=
        if nullish x then Ret EmptyString else ToString x in
      match items with
      | [] => Ret EmptyString
      | x :: rest => s <- item x ;; join_from item s rest
      end
  | JObj props =>
      if has_own props "toString" then Throw TypeError
      else Ret "[object Object]"
  end.

(** [!!v] *)
Definition truthy (v : value) : bool :=
  match v with
  | JUndefined | JNull => false
  | JBool b => b
  | JNum n => negb (n =? 0)%Z
  | JStr s => negb (is_empty s)
  | JArr _ | JObj _ => true
  end.

(** [v[k]] for a value that is neither [undefined] nor [null].  Only data
    properties are modelled: own properties of objects, [length] and the
    indices of arrays and strings. *)
Definition prop (v : value) (k : string) : value :=
  match v with
  | JObj props =>
      match assoc k props with Some x => x | None => JUndefined end
  | JArr items =>
      if String.eqb k "length" then JNum (Z.of_nat (List.length items))
      else match array_index k with
           | Some i => nth i items JUndefined
           | None => JUndefined
           end
  | JStr s =>
      if String.eqb k "length" then JNum (Z.of_nat (String.length s))
      else match array_index k with
           | Some i =>
               match String.get i s with
               | Some c => JStr (String c EmptyString)
               | None => JUndefined
               end
           | None => JUndefined
           end
  | _ => JUndefined
  end.

(** [v.k]: throws on [undefined] and [null]. *)
Definition get (v : value) (k : string) : outcome value :=
  if nullish v then Throw TypeError else Ret (prop v k).

(** [v?.k] *)
Definition getopt (v : value) (k : string) : value :=
  if nullish v then JUndefined else prop v k.

(** ** The Shopify Admin API as the handlers use it *)

Module Shopify.

Inductive PublishableStatus : Type := ACTIVE | DRAFT.

(** An entry of the [fields] variable of [UPSERT].  The text of a field is a
    string, the identifier of an uploaded file as the store returned it, or
    [JSON.stringify] of a list of such identifiers. *)
Inductive field_text : Type :=
| Text (s : string)
| FileId (id : value)
| JsonStringify (ids : list value).

Record MetaobjectFieldInput : Type := {
  mf_key : string;
  mf_value : field_text;
  mf_type : option string
}.

(** An entry of [FIELDS]; [required] and [validations] may be missing. *)
Record FieldDefinition : Type := {
  fd_name : string;
  fd_key : string;
  fd_type : string;
  fd_required : option bool;
  fd_validations : option (list string)
}.

(** An entry of [fieldDefinitionsToCreate]. *)
Record FieldDefinitionCreateInput : Type := {
  fc_name : string;
  fc_key : string;
  fc_type : string;
  fc_required : bool;
  fc_validations : option (list string)
}.

Record DefinitionCreateInput : Type := {
  dc_name : string;
  dc_type : string;
  dc_fieldDefinitions : list FieldDefinition;
  dc_publishable : bool;
  dc_displayNameKey : string
}.

Record FileCreateInput : Type := {
  alt : string;
  contentType : string;
  originalSource : string
}.

(** A call [gql(query, variables)]: one constructor per query text of the
    repository, carrying its variables. *)
Inductive request : Type :=
| GET_DEFINITION (type : string)
| CREATE_DEFINITION (definition : DefinitionCreateInput)
| UPDATE_DEFINITION (id : value)
    (fieldDefinitionsToCreate : list FieldDefinitionCreateInput)
    (fieldDefinitionsToUpdate : list FieldDefinitionCreateInput)
| FILE_CREATE (files : list FileCreateInput)
| UPSERT (handle name : string) (fields : list MetaobjectFieldInput)
    (status : PublishableStatus).

(** What [fetch] resolves to: the status line and the parsed body, [None]
    when [r.json()] rejects. *)
Record Response : Type := {
  status : Z;
  json : option value
}.

(** [r.ok]: the status is in the range 200-299. *)
Definition ok (r : Response) : bool :=
  ((200 <=? status r) && (status r <=? 299))%Z.

Inductive fetch_result : Type :=
| Rejected
| Resolved (r : Response).

Section World.

(** The store is any state machine answering requests; the handlers thread
    its state and the list of the requests sent so far, oldest first. *)
Context {Store : Type}.
Variable fetch : Store -> request -> fetch_result * Store.

Definition world : Type := Store * list request.
Definition M (A : Type) : Type := world -> outcome A * world.

Definition ret {A : Type} (a : A) : M A := fun w => (Ret a, w).
Definition throw {A : Type} (e : exn) : M A := fun w => (Throw e, w).
Definition bindM {A B : Type} (m : M A) (k : A -> M B) : M B :=
  fun w =>
    match m w with
    | (Ret a, w') => k a w'
    | (Throw e, w') => (Throw e, w')
    end.

(** [m.catch(() => null)] and the [try]/[catch] of the handlers. *)
Definition catch {A : Type} (m : M A) (h : exn -> A) : M A :=
  fun w =>
    match m w with
    | (Ret a, w') => (Ret a, w')
    | (Throw e, w') => (Ret (h e), w')
    end.

(** [async function gql(query, variables)] of the TypeScript handlers
    (cognito-shopify.ts and setup-animal.ts, lines 12-27). *)
Definition gql (q : request) : M value :=
  fun w =>
    let '(st, log) := w in
    let '(res, st') := fetch st q in
    let w' := (st', log ++ [q]) in
    match res with
    | Rejected => (Throw FetchRejected, w')
    | Resolved r =>
        match json r with
        | None => (Throw BodyNotJson, w')
        | Some j =>
            if negb (ok r) then
              let errors := getopt j "errors" in
              let msg := if truthy errors then inl errors
                         else inr (status r) in
              (Throw (ShopifyGraphQLError msg), w')
            else (Ret j, w')
        end
    end.

(** [async function gql(query, variables)] of the JavaScript handlers
    (setup-animal.js lines 7-17, cognito-shopify.js): [return r.json()]. *)
Definition gql_js (q : request) : M value :=
  fun w =>
    let '(st, log) := w in
    let '(res, st') := fetch st q in
    let w' := (st', log ++ [q]) in
    match res with
    | Rejected => (Throw FetchRejected, w')
    | Resolved r =>
        match json r with
        | None => (Throw BodyNotJson, w')
        | Some j => (Ret j, w')
        end
    end.

End World.

Notation "x <~ m ;; k" := (bindM m (fun x => k))
  (at level 61, m at next level, right associativity) : js_scope.

End Shopify.
Import Shopify.

(** ** api/cognito-shopify.ts: the alias table and the normalizer *)

Module Cognito.

Module MAP.
Definition externalId : list string := ["Entry ID"; "entryId"; "Number"; "id"].
Definition name : list string := ["Name"; "Dog Name"; "name"; "dog_name"].
Definition status : list string := ["Status"; "status"].
Definition species : list string := ["Species"; "species"].
Definition breed : list string := ["Breed"; "breed"].
Definition age : list string := ["Age"; "age"].
Definition gender : list string := ["Gender"; "gender"].
Definition size : list string := ["Size"; "size"].
Definition location : list string := ["Location"; "location"; "City"].
Definition adoptionFee : list string :=
  ["Adoption Fee"; "adoption_fee"; "AdoptionFee"].
Definition description : list string := ["Description"; "description"].
Definition imageUrl : list string :=
  ["Image Url"; "ImageUrl"; "image_url"; "PhotoUrl"].
Definition gallery : list string := ["Gallery Urls"; "Gallery"; "image_urls"].
Definition goodWithKids : list string := ["Good With Kids"; "good_with_kids"].
Definition goodWithDogs : list string := ["Good With Dogs"; "good_with_dogs"].
Definition goodWithCats : list string := ["Good With Cats"; "good_with_cats"].
Definition houseTrained : list string := ["House Trained"; "house_trained"].
Definition spayedNeutered : list string :=
  ["Spayed/Neutered"; "spayed_neutered"].
Definition vaccinated : list string := ["Vaccinated"; "vaccinated"].
End MAP.

(** [function pick(payload, keys, fallback)]: the first value among
    [payload?.[k]] that is neither [undefined] nor [null] and whose text is
    not blank; [String(v)] is evaluated, and may throw, for every value
    reached. *)
Fixpoint pick (payload : value) (keys : list string) (fallback : value)
  : outcome value :=
  match keys with
  | [] => Ret fallback
  | k :: rest =>
      let v := getopt payload k in
      if nullish v then pick payload rest fallback
      else
        s <- ToString v ;;
        if is_empty (trim s) then pick payload rest fallback else Ret v
  end.

(** The constants computed by lines 106-139 of the handler. *)
Record NormalizedRecord : Type := {
  externalId : string;
  name : string;
  statusRaw : string;
  species : string;
  breed : string;
  age : string;
  gender : string;
  size : string;
  location : string;
  adoptionFee : string;
  description : string;
  imageUrl : string;
  galleryUrls : list string;
  good_with_kids : bool;
  good_with_dogs : bool;
  good_with_cats : bool;
  house_trained : bool;
  spayed_neutered : bool;
  vaccinated : bool;
  publishStatus : PublishableStatus
}.

(** [String(pick(payload, keys, fallback))] *)
Definition pick_string (payload : value) (keys : list string) (fallback : value)
  : outcome string :=
  v <- pick payload keys fallback ;; ToString v.

(** [!!pick(payload, keys, false)] *)
Definition pick_bool (payload : value) (keys : list string) : outcome bool :=
  v <- pick payload keys (JBool false) ;; Ret (truthy v).

(** [a ?? b] *)
Definition coalesce (a b : value) : value := if nullish a then b else a.

(** [payload?.[MAP.gallery[0]] ?? payload?.[MAP.gallery[1]] ??
    payload?.[MAP.gallery[2]]] *)
Definition gallery_value (payload : value) : value :=
  coalesce (coalesce (getopt payload (nth 0 MAP.gallery EmptyString))
                     (getopt payload (nth 1 MAP.gallery EmptyString)))
           (getopt payload (nth 2 MAP.gallery EmptyString)).

(** The strings of an array, for [g.filter((u) => typeof u === "string" &&
    /^https?:\/\//.test(u))]. *)
Fixpoint http_strings (items : list value) : list string :=
  match items with
  | [] => []
  | JStr u :: rest =>
      if is_http_url u then u :: http_strings rest else http_strings rest
  | _ :: rest => http_strings rest
  end.

(** Lines 121-128: the gallery of a selected value [g]. *)
Definition gallery_of (g : value) : list string :=
  match g with
  | JArr items => http_strings items
  | JStr s =>
      if includes_comma s
      then filter is_http_url (map trim (split_comma s))
      else []
  | _ => []
  end.

(** Lines 139: [(statusRaw === "available") ? "ACTIVE" : "DRAFT"] *)
Definition publish_of (statusRaw : string) : PublishableStatus :=
  if String.eqb statusRaw "available" then ACTIVE else DRAFT.

(** Lines 106-139.  [Ret None] is the early return of line 107, the reply
    400 "Missing external id"; the statements run in source order, so the
    first conversion that throws decides the exception. *)
Definition normalize (payload : value) : outcome (option NormalizedRecord) :=
  id <- pick_string payload MAP.externalId (JStr EmptyString) ;;
  let externalId := trim id in
  if is_empty externalId then Ret None
  else
    name <- pick_string payload MAP.name (JStr "Unnamed") ;;
    status <- pick_string payload MAP.status (JStr "available") ;;
    let statusRaw := toLowerCase status in
    species <- pick_string payload MAP.species (JStr "Dog") ;;
    breed <- pick_string payload MAP.breed (JStr EmptyString) ;;
    age <- pick_string payload MAP.age (JStr EmptyString) ;;
    gender <- pick_string payload MAP.gender (JStr EmptyString) ;;
    size <- pick_string payload MAP.size (JStr EmptyString) ;;
    location <- pick_string payload MAP.location (JStr EmptyString) ;;
    adoptionFee <- pick_string payload MAP.adoptionFee (JStr EmptyString) ;;
    description <- pick_string payload MAP.description (JStr EmptyString) ;;
    imageUrl <- pick_string payload MAP.imageUrl (JStr EmptyString) ;;
    let galleryUrls := gallery_of (gallery_value payload) in
    good_with_kids <- pick_bool payload MAP.goodWithKids ;;
    good_with_dogs <- pick_bool payload MAP.goodWithDogs ;;
    good_with_cats <- pick_bool payload MAP.goodWithCats ;;
    house_trained <- pick_bool payload MAP.houseTrained ;;
    spayed_neutered <- pick_bool payload MAP.spayedNeutered ;;
    vaccinated <- pick_bool payload MAP.vaccinated ;;
    Ret (Some {|
      externalId := externalId;
      name := trim name;
      statusRaw := statusRaw;
      species := species;
      breed := breed;
      age := age;
      gender := gender;
      size := size;
      location := location;
      adoptionFee := adoptionFee;
      description := description;
      imageUrl := imageUrl;
      galleryUrls := galleryUrls;
      good_with_kids := good_with_kids;
      good_with_dogs := good_with_dogs;
      good_with_cats := good_with_cats;
      house_trained := house_trained;
      spayed_neutered := spayed_neutered;
      vaccinated := vaccinated;
      publishStatus := publish_of statusRaw
    |}).

(** The object returned by [uploadExternalImage]. *)
Record Uploaded : Type := {
  id : value;
  url : value
}.

(** [uploaded?.id], with [None] for [null]. *)
Definition uploaded_id (u : option Uploaded) : value :=
  match u with
  | Some x => id x
  | None => JUndefined
  end.

(** [String(b)] *)
Definition string_of_bool (b : bool) : string :=
  if b then "true" else "false".

Definition field (k : string) (v : string) : MetaobjectFieldInput :=
  {| mf_key := k; mf_value := Text v; mf_type := None |}.
Definition typed_field (k : string) (v : field_text) (t : string)
  : MetaobjectFieldInput :=
  {| mf_key := k; mf_value := v; mf_type := Some t |}.

(** Lines 142-161: the field list before any upload. *)
Definition base_fields (r : NormalizedRecord) : list MetaobjectFieldInput :=
  [ field "external_id" (externalId r);
    field "name" (name r);
    field "status" (statusRaw r);
    field "species" (species r);
    field "breed" (breed r);
    field "age" (age r);
    field "gender" (gender r);
    field "size" (size r);
    field "location" (location r);
    field "adoption_fee" (adoptionFee r);
    typed_field "good_with_kids" (Text (string_of_bool (good_with_kids r)))
      "boolean";
    typed_field "good_with_dogs" (Text (string_of_bool (good_with_dogs r)))
      "boolean";
    typed_field "good_with_cats" (Text (string_of_bool (good_with_cats r)))
      "boolean";
    typed_field "house_trained" (Text (string_of_bool (house_trained r)))
      "boolean";
    typed_field "spayed_neutered" (Text (string_of_bool (spayed_neutered r)))
      "boolean";
    typed_field "vaccinated" (Text (string_of_bool (vaccinated r))) "boolean";
    typed_field "description"
      (Text ("<p>" ++ replace_newlines (description r) ++ "</p>")%string)
      "rich_text_field" ].

(** The variables of the [fileCreate] mutation for one URL. *)
Definition file_request (u : string) : request :=
  FILE_CREATE [{| alt := "animal"; contentType := "IMAGE";
                  originalSource := u |}].

(** What the handler answers. *)
Inductive body : Type :=
| Plain (text : string)
| UserError (err : value)
| Upserted (id : value) (handle : string) (status : PublishableStatus)
| ServerError (e : exn).

Record reply : Type := {
  code : Z;
  sent : body
}.

(** The inbound call: its method, the [x-webhook-secret] header and the
    parsed body. *)
Record VercelRequest : Type := {
  method : string;
  x_webhook_secret : value;
  req_body : value
}.

Section Handler.

Context {Store : Type}.
Variable fetch : Store -> request -> fetch_result * Store.
Variable WEBHOOK_SECRET : string.

(** [async function uploadExternalImage(url)], lines 30-43. *)
Definition uploadExternalImage (u : string) : M (option Uploaded) :=
  res <~ gql fetch (file_request u) ;;
  let file :=
    getopt (getopt (getopt (getopt res "data") "fileCreate") "files") "0" in
  if negb (truthy (getopt file "id")) then ret None
  else ret (Some {| id := prop file "id";
                    url := getopt (getopt (prop file "preview") "image")
                                  "url" |}).

(** [await uploadExternalImage(url).catch(() => null)] *)
Definition upload_or_null (u : string) : M (option Uploaded) :=
  catch (uploadExternalImage u) (fun _ => None).

(** Lines 163-169: the primary image. *)
Definition upload_primary (r : NormalizedRecord)
    (fields : list MetaobjectFieldInput) : M (list MetaobjectFieldInput) :=
  if negb (is_empty (imageUrl r)) && is_http_url (imageUrl r) then
    uploaded <~ upload_or_null (imageUrl r) ;;
    if truthy (uploaded_id uploaded)
    then ret (fields ++ [typed_field "image" (FileId (uploaded_id uploaded))
                           "file_reference"])
    else ret fields
  else ret fields.

(** Lines 174-178: the loop over [galleryUrls.slice(0, 12)]. *)
Fixpoint upload_each (urls : list string) (fileIds : list value)
  : M (list value) :=
  match urls with
  | [] => ret fileIds
  | u :: rest =>
      if negb (is_http_url u) then upload_each rest fileIds
      else
        uploaded <~ upload_or_null u ;;
        if truthy (uploaded_id uploaded)
        then upload_each rest (fileIds ++ [uploaded_id uploaded])
        else upload_each rest fileIds
  end.

(** Lines 171-182: the gallery. *)
Definition upload_gallery (r : NormalizedRecord)
    (fields : list MetaobjectFieldInput) : M (list MetaobjectFieldInput) :=
  match galleryUrls r with
  | [] => ret fields
  | _ :: _ =>
      fileIds <~ upload_each (firstn 12 (galleryUrls r)) [] ;;
      match fileIds with
      | [] => ret fields
      | _ :: _ =>
          ret (fields ++ [typed_field "gallery" (JsonStringify fileIds)
                            "list.file_reference"])
      end
  end.

(** Lines 141-200: from the normalized constants to the reply. *)
Definition upsert (r : NormalizedRecord) : M reply :=
  fields <~ upload_primary r (base_fields r) ;;
  fields <~ upload_gallery r fields ;;
  result <~ gql fetch (UPSERT (externalId r) (name r) fields
                         (publishStatus r)) ;;
  let out := getopt (getopt result "data") "metaobjectUpsert" in
  let err := getopt (getopt out "userErrors") "0" in
  if truthy err then ret {| code := 400; sent := UserError err |}
  else ret {| code := 200;
              sent := Upserted (getopt (getopt out "metaobject") "id")
                        (externalId r) (publishStatus r) |}.

(** [req.body || {}] *)
Definition payload_of (b : value) : value :=
  if truthy b then b else JObj [].

(** [sig !== WEBHOOK_SECRET] for a header value. *)
Definition is_string_equal (v : value) (s : string) : bool :=
  match v with
  | JStr t => String.eqb t s
  | _ => false
  end.

(** [export default async function handler(req, res)], lines 96-204. *)
Definition handler (req : VercelRequest) : M reply :=
  catch
    (if negb (String.eqb (method req) "POST")
     then ret {| code := 405; sent := Plain "Method Not Allowed" |}
     else if negb (truthy (x_webhook_secret req))
             || negb (is_string_equal (x_webhook_secret req) WEBHOOK_SECRET)
     then ret {| code := 401; sent := Plain "Unauthorized" |}
     else
       match normalize (payload_of (req_body req)) with
       | Throw e => throw e
       | Ret None =>
           ret {| code := 400;
                  sent := Plain "Missing external id (e.g., Entry ID)" |}
       | Ret (Some r) => upsert r
       end)
    (fun e => {| code := 500; sent := ServerError e |}).

End Handler.

End Cognito.

(** ** api/shopify/setup-animal.ts: the field catalog and the reconciler *)

Module Setup.

Definition text_field (n k : string) : FieldDefinition :=
  {| fd_name := n; fd_key := k; fd_type := "single_line_text_field";
     fd_required := None; fd_validations := None |}.
Definition boolean_field (n k : string) : FieldDefinition :=
  {| fd_name := n; fd_key := k; fd_type := "boolean";
     fd_required := None; fd_validations := None |}.

(** [const FIELDS], lines 61-81. *)
Definition FIELDS : list FieldDefinition :=
  [ {| fd_name := "Name"; fd_key := "name";
       fd_type := "single_line_text_field";
       fd_required := Some true; fd_validations := None |};
    text_field "Status" "status";
    text_field "Species" "species";
    text_field "Breed" "breed";
    text_field "Age" "age";
    text_field "Gender" "gender";
    text_field "Size" "size";
    text_field "Location" "location";
    text_field "Adoption Fee" "adoption_fee";
    boolean_field "Good With Kids" "good_with_kids";
    boolean_field "Good With Dogs" "good_with_dogs";
    boolean_field "Good With Cats" "good_with_cats";
    boolean_field "House Trained" "house_trained";
    boolean_field "Spayed/Neutered" "spayed_neutered";
    boolean_field "Vaccinated" "vaccinated";
    {| fd_name := "Description"; fd_key := "description";
       fd_type := "rich_text_field";
       fd_required := None; fd_validations := None |};
    {| fd_name := "Image"; fd_key := "image"; fd_type := "file_reference";
       fd_required := None; fd_validations := None |};
    {| fd_name := "Gallery"; fd_key := "gallery";
       fd_type := "list.file_reference";
       fd_required := None; fd_validations := None |};
    {| fd_name := "External ID"; fd_key := "external_id";
       fd_type := "single_line_text_field";
       fd_required := None; fd_validations := Some ["UNIQUE"] |} ].

(** [existing.fieldDefinitions.map((f) => f.key)]: only an array has [map];
    reading [key] of an [undefined] or [null] item throws. *)
Fixpoint keys_of_items (items : list value) : outcome (list value) :=
  match items with
  | [] => Ret []
  | f :: rest =>
      k <- get f "key" ;;
      ks <- keys_of_items rest ;;
      Ret (k :: ks)
  end.

Definition field_keys (fieldDefinitions : value) : outcome (list value) :=
  match fieldDefinitions with
  | JArr items => keys_of_items items
  | _ => Throw TypeError
  end.

(** [existingKeys.has(k)] for a string [k]: some member of the set is that
    very string. *)
Definition has (existingKeys : list value) (k : string) : bool :=
  existsb (fun v => match v with
                    | JStr t => String.eqb t k
                    | _ => false
                    end) existingKeys.

(** [({ name, key, type, required, validations }) => ({ name, key, type,
    required: !!required, validations })] *)
Definition to_input (f : FieldDefinition) : FieldDefinitionCreateInput :=
  {| fc_name := fd_name f; fc_key := fd_key f; fc_type := fd_type f;
     fc_required := match fd_required f with
                    | Some b => b
                    | None => false
                    end;
     fc_validations := fd_validations f |}.

(** Lines 113-116. *)
Definition toCreate (existingKeys : list value)
  : list FieldDefinitionCreateInput :=
  map to_input (filter (fun f => negb (has existingKeys (fd_key f))) FIELDS).

Inductive body : Type :=
| Plain (text : string)
| StepErrors (step : string) (errors : value)
| Created (created : value)
| UpToDate (message : string)
| CreatedFields (createdFields : list string)
| ServerError (e : exn).

Record reply : Type := {
  code : Z;
  sent : body
}.

(** The inbound call: its method and its [authorization] header. *)
Record VercelRequest : Type := {
  method : string;
  authorization : value
}.

Section Handler.

Context {Store : Type}.
Variable fetch : Store -> request -> fetch_result * Store.
Variable SETUP_SECRET : string.

(** The test of line 86: the [authorization] header, or the empty string
    when it is falsy, differs from "Bearer " followed by [SETUP_SECRET]. *)
Definition unauthorized (authorization : value) : bool :=
  match (if truthy authorization then authorization else JStr EmptyString) with
  | JStr t => negb (String.eqb t ("Bearer " ++ SETUP_SECRET)%string)
  | _ => true
  end.

(** Lines 90-130, the body of the [try]. *)
Definition reconcile : M reply :=
  defResp <~ gql fetch (GET_DEFINITION "animal") ;;
  let existing :=
    getopt (getopt defResp "data") "metaobjectDefinitionByType" in
  if negb (truthy existing) then
    createResp <~ gql fetch (CREATE_DEFINITION
      {| dc_name := "Animal"; dc_type := "animal";
         dc_fieldDefinitions := FIELDS; dc_publishable := true;
         dc_displayNameKey := "name" |}) ;;
    let out := getopt (getopt createResp "data") "metaobjectDefinitionCreate" in
    let errs := getopt out "userErrors" in
    if truthy (getopt errs "length")
    then ret {| code := 400; sent := StepErrors "create" errs |}
    else ret {| code := 200;
                sent := Created (getopt out "metaobjectDefinition") |}
  else
    match field_keys (prop existing "fieldDefinitions") with
    | Throw e => throw e
    | Ret existingKeys =>
        match toCreate existingKeys with
        | [] =>
            ret {| code := 200;
                   sent := UpToDate "animal definition already up-to-date" |}
        | _ :: _ =>
            updateResp <~ gql fetch (UPDATE_DEFINITION (prop existing "id")
                                       (toCreate existingKeys) []) ;;
            let uErrs :=
              getopt (getopt (getopt updateResp "data")
                              "metaobjectDefinitionUpdate") "userErrors" in
            if truthy (getopt uErrs "length")
            then ret {| code := 400; sent := StepErrors "update" uErrs |}
            else ret {| code := 200;
                        sent := CreatedFields
                                  (map fc_key (toCreate existingKeys)) |}
        end
    end.

(** [export default async function handler(req, res)], lines 83-134. *)
Definition handler (req : VercelRequest) : M reply :=
  catch
    (if negb (String.eqb (method req) "POST")
     then ret {| code := 405; sent := Plain "Use POST" |}
     else if unauthorized (authorization req)
     then ret {| code := 401; sent := Plain "Unauthorized" |}
     else reconcile)
    (fun e => {| code := 500; sent := ServerError e |}).

End Handler.

End Setup.

(** ** A store that accepts every definition request

    The environment of the reconciler for the runs in which the store
    accepts what it is sent: it holds at most one definition of type
    "animal", answers [GET_DEFINITION] with it, creates it on
    [CREATE_DEFINITION] and appends the submitted fields on
    [UPDATE_DEFINITION], reporting no user error. *)

Module AcceptingStore.

Record TypeDefinition : Type := {
  td_id : string;
  td_fields : list FieldDefinitionCreateInput
}.

Definition state : Type := option TypeDefinition.

Definition field_json (f : FieldDefinitionCreateInput) : value :=
  JObj [("name", JStr (fc_name f)); ("key", JStr (fc_key f));
        ("type", JStr (fc_type f)); ("required", JBool (fc_required f))].

Definition definition_json (d : TypeDefinition) : value :=
  JObj [("id", JStr (td_id d)); ("name", JStr "Animal");
        ("type", JStr "animal"); ("displayNameKey", JStr "name");
        ("fieldDefinitions", JArr (map field_json (td_fields d)))].

Definition data (k : string) (v : value) : fetch_result :=
  Resolved {| status := 200; json := Some (JObj [("data", JObj [(k, v)])]) |}.

Definition fresh_id : string := "gid://shopify/MetaobjectDefinition/1".

Definition fetch (s : state) (q : request) : fetch_result * state :=
  match q with
  | GET_DEFINITION t =>
      (data "metaobjectDefinitionByType"
         match s with
         | Some d => if String.eqb t "animal" then definition_json d else JNull
         | None => JNull
         end, s)
  | CREATE_DEFINITION def =>
      (data "metaobjectDefinitionCreate"
         (JObj [("metaobjectDefinition",
                 JObj [("id", JStr fresh_id); ("type", JStr (dc_type def));
                       ("name", JStr (dc_name def));
                       ("displayNameKey", JStr (dc_displayNameKey def))]);
                ("userErrors", JArr [])]),
       Some {| td_id := fresh_id;
               td_fields := map Setup.to_input (dc_fieldDefinitions def) |})
  | UPDATE_DEFINITION i toCreate _ =>
      (data "metaobjectDefinitionUpdate"
         (JObj [("metaobjectDefinition", JObj [("id", i)]);
                ("userErrors", JArr [])]),
       match s with
       | Some d => Some {| td_id := td_id d;
                           td_fields := td_fields d ++ toCreate |}
       | None => None
       end)
  | _ => (Resolved {| status := 200; json := Some (JObj []) |}, s)
  end.

End AcceptingStore.

(** ** Sample records *)

Module Examples.

(** The example of the specification. *)
Definition rex_payload : value :=
  JObj [("Entry ID", JStr "42"); ("Name", JStr "Rex");
        ("Status", JStr "AVAILABLE"); ("Good With Kids", JStr "true")].

Definition rex : Cognito.NormalizedRecord :=
  {| Cognito.externalId := "42";
     Cognito.name := "Rex";
     Cognito.statusRaw := "available";
     Cognito.species := "Dog";
     Cognito.breed := EmptyString;
     Cognito.age := EmptyString;
     Cognito.gender := EmptyString;
     Cognito.size := EmptyString;
     Cognito.location := EmptyString;
     Cognito.adoptionFee := EmptyString;
     Cognito.description := EmptyString;
     Cognito.imageUrl := EmptyString;
     Cognito.galleryUrls := [];
     Cognito.good_with_kids := true;
     Cognito.good_with_dogs := false;
     Cognito.good_with_cats := false;
     Cognito.house_trained := false;
     Cognito.spayed_neutered := false;
     Cognito.vaccinated := false;
     Cognito.publishStatus := ACTIVE |}.

(** A record whose flags are the strings "false", "no" and "0", the
    number 0 and the boolean false. *)
Definition flags_payload : value :=
  JObj [("Entry ID", JStr "7");
        ("Good With Kids", JStr "false");
        ("Good With Dogs", JStr "no");
        ("Good With Cats", JStr "0");
        ("House Trained", JNum 0);
        ("Spayed/Neutered", JBool false)].

Definition flags : Cognito.NormalizedRecord :=
  {| Cognito.externalId := "7";
     Cognito.name := "Unnamed";
     Cognito.statusRaw := "available";
     Cognito.species := "Dog";
     Cognito.breed := EmptyString;
     Cognito.age := EmptyString;
     Cognito.gender := EmptyString;
     Cognito.size := EmptyString;
     Cognito.location := EmptyString;
     Cognito.adoptionFee := EmptyString;
     Cognito.description := EmptyString;
     Cognito.imageUrl := EmptyString;
     Cognito.galleryUrls := [];
     Cognito.good_with_kids := true;
     Cognito.good_with_dogs := true;
     Cognito.good_with_cats := true;
     Cognito.house_trained := false;
     Cognito.spayed_neutered := false;
     Cognito.vaccinated := false;
     Cognito.publishStatus := ACTIVE |}.

(** A record whose first gallery alias is the empty string and whose
    second is a list of one URL. *)
Definition shadowed_gallery_payload : value :=
  JObj [("Entry ID", JStr "42");
        ("Gallery Urls", JStr EmptyString);
        ("Gallery", JArr [JStr "https://cdn.example/a.jpg"])].

(** Twenty valid gallery URLs, and a record that lists them. *)
Definition twenty_urls : list string :=
  map (fun n => ("https://cdn.example/" ++ string_of_Z (Z.of_nat n)
                 ++ ".jpg")%string)
      (seq 1 20).

Definition twenty_payload : value :=
  JObj [("Entry ID", JStr "42"); ("Gallery", JArr (map JStr twenty_urls))].

Definition twenty : Cognito.NormalizedRecord :=
  {| Cognito.externalId := "42";
     Cognito.name := "Unnamed";
     Cognito.statusRaw := "available";
     Cognito.species := "Dog";
     Cognito.breed := EmptyString;
     Cognito.age := EmptyString;
     Cognito.gender := EmptyString;
     Cognito.size := EmptyString;
     Cognito.location := EmptyString;
     Cognito.adoptionFee := EmptyString;
     Cognito.description := EmptyString;
     Cognito.imageUrl := EmptyString;
     Cognito.galleryUrls := twenty_urls;
     Cognito.good_with_kids := false;
     Cognito.good_with_dogs := false;
     Cognito.good_with_cats := false;
     Cognito.house_trained := false;
     Cognito.spayed_neutered := false;
     Cognito.vaccinated := false;
     Cognito.publishStatus := ACTIVE |}.

(** A store that answers every request with status 200 and a body that
    holds both a non-empty [errors] array and [data]. *)
Definition errors_and_data : value :=
  JObj [("errors", JArr [JObj [("message", JStr "Throttled")]]);
        ("data",
         JObj [("metaobjectUpsert",
                JObj [("metaobject",
                       JObj [("id", JStr "gid://shopify/Metaobject/1")])])])].

Definition partial_store (s : unit) (q : request) : fetch_result * unit :=
  (Resolved {| status := 200; json := Some errors_and_data |}, s).

(** A store that is unreachable. *)
Definition unreachable_store (s : unit) (q : request) : fetch_result * unit :=
  (Rejected, s).

(** An authorized call that carries the example of the specification. *)
Definition rex_request : Cognito.VercelRequest :=
  {| Cognito.method := "POST";
     Cognito.x_webhook_secret := JStr "s3cret";
     Cognito.req_body := rex_payload |}.



(** A record with nothing but an identity, a gallery and a description. *)
Definition sample (urls : list string) (text : string)
  : Cognito.NormalizedRecord :=
  {| Cognito.externalId := "42";
     Cognito.name := "Unnamed";
     Cognito.statusRaw := "available";
     Cognito.species := "Dog";
     Cognito.breed := EmptyString;
     Cognito.age := EmptyString;
     Cognito.gender := EmptyString;
     Cognito.size := EmptyString;
     Cognito.location := EmptyString;
     Cognito.adoptionFee := EmptyString;
     Cognito.description := text;
     Cognito.imageUrl := EmptyString;
     Cognito.galleryUrls := urls;
     Cognito.good_with_kids := false;
     Cognito.good_with_dogs := false;
     Cognito.good_with_cats := false;
     Cognito.house_trained := false;
     Cognito.spayed_neutered := false;
     Cognito.vaccinated := false;
     Cognito.publishStatus := ACTIVE |}.

(** A gallery that is one valid URL, given as a string under the last
    alias. *)
Definition single_url_payload : value :=
  JObj [("Entry ID", JStr "42");
        ("image_urls", JStr "https://cdn.example/a.jpg")].

(** A gallery that is two URLs in one string, with a comma between. *)
Definition comma_gallery_payload : value :=
  JObj [("Entry ID", JStr "42");
        ("Gallery Urls", JNull);
        ("Gallery", JStr "https://cdn.example/a.jpg, http://cdn.example/b.jpg")].

(** A description of two paragraphs, the first ended by two line feeds and
    the second by one. *)
Definition two_paragraphs : string :=
  ("Shy at first." ++ String newline (String newline
     ("Loves long walks." ++ String newline EmptyString)))%string.

End Examples.

(** ** Vocabulary of the specification *)

Module Spec.

(** A text made of white space only; the empty text is one. *)
Fixpoint whitespace_only (s : string) : bool :=
  match s with
  | EmptyString => true
  | String c r => is_ws c && whitespace_only r
  end.

(** An alias value that is absent ([undefined]), [null], or whose text is
    empty or white space only. *)
Definition blank (v : value) : bool :=
  nullish v
  || match ToString v with
     | Ret s => whitespace_only s
     | Throw _ => false
     end.

(** An alias value that is defined, not [null], and has a text that is not
    blank. *)
Definition populated (v : value) : bool :=
  negb (nullish v)
  && match ToString v with
     | Ret s => negb (whitespace_only s)
     | Throw _ => false
     end.

(** The values of the aliases [keys] in [payload], in declared order. *)
Definition alias_values (payload : value) (keys : list string) : list value :=
  map (getopt payload) keys.

(** The value of the first alias, in declared order, that is populated. *)
Definition first_populated (payload : value) (keys : list string)
  : option value :=
  find populated (alias_values payload keys).

(** The value of the first alias, in declared order, that is neither
    [undefined] nor [null]. *)
Definition first_present (payload : value) (keys : list string)
  : option value :=
  find (fun v => negb (nullish v)) (alias_values payload keys).

(** The selected value, or the declared fallback when no alias matches. *)
Definition or_fallback (selected : option value) (fallback : value) : value :=
  match selected with
  | Some v => v
  | None => fallback
  end.

(** A letter a-z. *)
Definition is_lower_letter (d : ascii) : bool :=
  let n := nat_of_ascii d in (97 <=? n) && (n <=? 122).

Fixpoint lower_letters (t : string) : bool :=
  match t with
  | EmptyString => true
  | String d r => is_lower_letter d && lower_letters r
  end.

(** [s] is [t] up to the case of the letters a-z of [t]. *)
Inductive case_variant : string -> string -> Prop :=
| cv_empty : case_variant EmptyString EmptyString
| cv_letter (c d : ascii) (s t : string) :
    c = d \/ c = upper_char d ->
    case_variant s t ->
    case_variant (String c s) (String d t).

(** A text contains a comma. *)
Definition has_comma (s : string) : Prop :=
  In comma (list_ascii_of_string s).

(** A value with no object inside: a scalar, or a list of such values. *)
Fixpoint scalar_or_list (v : value) : bool :=
  match v with
  | JObj _ => false
  | JArr items => forallb scalar_or_list items
  | _ => true
  end.

(** An ExternalRecord: a flat mapping of string keys to values. *)
Definition ExternalRecord (payload : value) : bool :=
  match payload with
  | JObj props => forallb (fun kv => scalar_or_list (snd kv)) props
  | _ => false
  end.

(** The upload requested for the primary image, if any. *)
Definition primary_requests (r : Cognito.NormalizedRecord) : list request :=
  if negb (is_empty (Cognito.imageUrl r)) && is_http_url (Cognito.imageUrl r)
  then [Cognito.file_request (Cognito.imageUrl r)]
  else [].

(** The field list of an upsert: the base fields, then the image reference
    if one was obtained, then the gallery references if any were. *)
Definition image_field (id : value) : MetaobjectFieldInput :=
  Cognito.typed_field "image" (FileId id) "file_reference".
Definition gallery_field (ids : list value) : MetaobjectFieldInput :=
  Cognito.typed_field "gallery" (JsonStringify ids) "list.file_reference".

(** The request is an upload of a URL with the http or https prefix. *)
Definition http_upload (q : request) : Prop :=
  exists u, q = Cognito.file_request u /\ is_http_url u = true.

(** The store fails to answer [q] in state [st]: the transport rejects, the
    body is not JSON, or the status is not 2xx. *)
Definition store_fails {Store : Type}
    (fetch : Store -> request -> fetch_result * Store)
    (st : Store) (q : request) : Prop :=
  match fst (fetch st q) with
  | Rejected => True
  | Resolved resp => json resp = None \/ ok resp = false
  end.

End Spec.
Import Spec.

(** Induction on values through the lists they nest. *)
Section ValueInduction.

Variable P : value -> Prop.
Hypothesis P_undefined : P JUndefined.
Hypothesis P_null : P JNull.
Hypothesis P_bool : forall b, P (JBool b).
Hypothesis P_num : forall n, P (JNum n).
Hypothesis P_str : forall s, P (JStr s).
Hypothesis P_arr : forall items, Forall P items -> P (JArr items).
Hypothesis P_obj :
  forall props, Forall (fun kv => P (snd kv)) props -> P (JObj props).

Fixpoint value_induction (v : value) : P v :=
  match v with
  | JUndefined => P_undefined
  | JNull => P_null
  | JBool b => P_bool b
  | JNum n => P_num n
  | JStr s => P_str s
  | JArr items =>
      P_arr items
        ((fix all (l : list value) : Forall P l :=
            match l with
            | [] => Forall_nil P
            | x :: l' => Forall_cons x (value_induction x) (all l')
            end) items)
  | JObj props =>
      P_obj props
        ((fix all (l : list (string * value))
            : Forall (fun kv => P (snd kv)) l :=
            match l with
            | [] => Forall_nil _
            | kv :: l' =>
                Forall_cons kv (value_induction (snd kv)) (all l')
            end) props)
  end.

End ValueInduction.

(** ** Module initialisation and the JavaScript handlers *)

Module Env.

(** [process.env.X || d] for a variable that is unset or a string. *)
Definition or_default (v : option string) (d : string) : string :=
  match v with
  | Some s => if is_empty s then d else s
  | None => d
  end.

(** [!process.env.X] *)
Definition unset (v : option string) : bool :=
  match v with
  | Some s => is_empty s
  | None => true
  end.

(** Lines 4-10 of both TypeScript handlers: the three constants, or [None]
    when the module throws "Missing ... env vars" while loading.  [secret]
    is [WEBHOOK_SECRET] in cognito-shopify.ts and [SETUP_SECRET] in
    setup-animal.ts. *)
Definition load (SHOPIFY_STORE_DOMAIN SHOPIFY_ADMIN_TOKEN secret : option string)
  : option (string * string * string) :=
  let SHOP := or_default SHOPIFY_STORE_DOMAIN
                "mission-bay-puppy-rescue.myshopify.com" in
  if is_empty SHOP || unset SHOPIFY_ADMIN_TOKEN || unset secret then None
  else Some (SHOP,
             or_default SHOPIFY_ADMIN_TOKEN EmptyString,
             or_default secret EmptyString).

End Env.

Module Legacy.

(** [`Bearer ${SETUP_SECRET}`] when the variable may be unset: an unset
    variable prints as "undefined". *)
Definition bearer (SETUP_SECRET : option string) : string :=
  ("Bearer " ++ match SETUP_SECRET with
                | Some s => s
                | None => "undefined"
                end)%string.

Inductive body : Type :=
| Plain (text : string)
| Received (received : value)
| Relayed (resp : value).

Record reply : Type := {
  code : Z;
  sent : body
}.

(** api/cognito-shopify.js, [handler]: the guards, then the body is echoed. *)
Definition cognito_handler (WEBHOOK_SECRET : option string)
    (req : Cognito.VercelRequest) : reply :=
  if negb (String.eqb (Cognito.method req) "POST")
  then {| code := 405; sent := Plain "Method Not Allowed" |}
  else if negb (truthy (Cognito.x_webhook_secret req))
          || negb (match WEBHOOK_SECRET with
                   | Some s =>
                       Cognito.is_string_equal (Cognito.x_webhook_secret req) s
                   | None => false
                   end)
  then {| code := 401; sent := Plain "Unauthorized" |}
  else {| code := 200; sent := Received (Cognito.req_body req) |}.

Section SetupHandler.

Context {Store : Type}.
Variable fetch : Store -> request -> fetch_result * Store.
Variable SETUP_SECRET : option string.

(** api/shopify/setup-animal.js, [handler], lines 21-29.  There is no
    [try]: what [gql] throws leaves the handler.  The lookup of this file
    selects fewer members of the definition than that of the TypeScript
    handler; the variables are the same. *)
Definition setup_handler (req : Setup.VercelRequest) : M reply :=
  if negb (String.eqb (Setup.method req) "POST")
  then ret {| code := 405; sent := Plain "Use POST" |}
  else
    match (if truthy (Setup.authorization req)
           then Setup.authorization req else JStr EmptyString) with
    | JStr t =>
        if negb (String.eqb t (bearer SETUP_SECRET))
        then ret {| code := 401; sent := Plain "Unauthorized" |}
        else
          resp <~ gql_js fetch (GET_DEFINITION "animal") ;;
          ret {| code := 200; sent := Relayed resp |}
    | _ => ret {| code := 401; sent := Plain "Unauthorized" |}
    end.

End SetupHandler.

End Legacy.

(** ** Further vocabulary *)

Module Spec2.

(** The pieces of a list joined by commas. *)
Fixpoint join_comma (pieces : list string) : string :=
  match pieces with
  | [] => EmptyString
  | [p] => p
  | p :: rest => (p ++ String comma (join_comma rest))%string
  end.

(** A text contains a line feed. *)
Fixpoint has_newline (s : string) : bool :=
  match s with
  | EmptyString => false
  | String c r => Ascii.eqb c newline || has_newline r
  end.

(** Every alias of the table. *)
Definition aliases : list string :=
  Cognito.MAP.externalId ++ Cognito.MAP.name ++ Cognito.MAP.status
  ++ Cognito.MAP.species ++ Cognito.MAP.breed ++ Cognito.MAP.age
  ++ Cognito.MAP.gender ++ Cognito.MAP.size ++ Cognito.MAP.location
  ++ Cognito.MAP.adoptionFee ++ Cognito.MAP.description
  ++ Cognito.MAP.imageUrl ++ Cognito.MAP.gallery
  ++ Cognito.MAP.goodWithKids ++ Cognito.MAP.goodWithDogs
  ++ Cognito.MAP.goodWithCats ++ Cognito.MAP.houseTrained
  ++ Cognito.MAP.spayedNeutered ++ Cognito.MAP.vaccinated.

(** The request is an upload, the request is an upsert. *)
Definition is_file_create (q : request) : bool :=
  match q with FILE_CREATE _ => true | _ => false end.
Definition is_upsert (q : request) : bool :=
  match q with UPSERT _ _ _ _ => true | _ => false end.

(** The fields of the upsert requests of a log. *)
Definition upsert_fields (q : request) : list MetaobjectFieldInput :=
  match q with
  | UPSERT _ _ fields _ => fields
  | _ => []
  end.

(** Every file identifier a field holds is truthy, and a list of
    identifiers is not empty. *)
Definition ids_truthy (f : MetaobjectFieldInput) : bool :=
  match mf_value f with
  | Text _ => true
  | FileId i => truthy i
  | JsonStringify ids =>
      forallb truthy ids && negb (Nat.eqb (List.length ids) 0)
  end.

(** The catalog entry of a key. *)
Definition catalog_entry (k : string) : option FieldDefinition :=
  find (fun c => String.eqb (fd_key c) k) Setup.FIELDS.

(** A field is declared by the catalog: its key is there, and its type,
    when it names one, is the declared type. *)
Definition declared (f : MetaobjectFieldInput) : bool :=
  match catalog_entry (mf_key f) with
  | Some c =>
      match mf_type f with
      | Some t => String.eqb t (fd_type c)
      | None => true
      end
  | None => false
  end.

(** The strings of a list are pairwise different. *)
Fixpoint distinct (l : list string) : bool :=
  match l with
  | [] => true
  | x :: rest => negb (existsb (String.eqb x) rest) && distinct rest
  end.

(** The definition submitted when none exists, lines 97-103. *)
Definition full_definition : DefinitionCreateInput :=
  {| dc_name := "Animal"; dc_type := "animal";
     dc_fieldDefinitions := Setup.FIELDS; dc_publishable := true;
     dc_displayNameKey := "name" |}.

(** The replies of a reconciliation that ran to its end. *)
Definition settled (rep : Setup.reply) : Prop :=
  (Setup.code rep = 200%Z /\
   ((exists c, Setup.sent rep = Setup.Created c)
    \/ Setup.sent rep
       = Setup.UpToDate "animal definition already up-to-date"
    \/ exists ks, Setup.sent rep = Setup.CreatedFields ks))
  \/ (Setup.code rep = 400%Z /\
      exists step errs,
        Setup.sent rep = Setup.StepErrors step errs
        /\ (step = "create" \/ step = "update")
        /\ truthy (getopt errs "length") = true).

(** A member [fieldDefinitions] the reconciler cannot read: not an array,
    or an array with an [undefined] or [null] item. *)
Definition unreadable_fields (v : value) : bool :=
  match v with
  | JArr items => existsb nullish items
  | _ => true
  end.

(** [result?.data?.metaobjectUpsert?.userErrors?.[0]] of an answer. *)
Definition first_user_error (j : value) : value :=
  getopt (getopt (getopt (getopt j "data") "metaobjectUpsert") "userErrors")
         "0".

(** The store answers the request [q], in state [st], with status 2xx and
    the JSON body [j]. *)
Definition answers {Store : Type}
    (fetch : Store -> request -> fetch_result * Store)
    (st : Store) (q : request) (j : value) : Prop :=
  exists resp, fst (fetch st q) = Resolved resp
               /\ ok resp = true /\ json resp = Some j.

(** A run of [n] line feeds. *)
Fixpoint newlines (n : nat) : string :=
  match n with
  | 0 => EmptyString
  | S m => String newline (newlines m)
  end.

(** A text cut at its runs of line feeds: a first segment, then for each
    run its length minus one and the segment that follows it. *)
Fixpoint with_runs (first : string) (rest : list (nat * string)) : string :=
  match rest with
  | [] => first
  | (n, s) :: more => (first ++ newlines (S n) ++ with_runs s more)%string
  end.

(** The same segments with one paragraph break in place of each run. *)
Fixpoint with_breaks (first : string) (rest : list (nat * string)) : string :=
  match rest with
  | [] => first
  | (n, s) :: more => (first ++ "</p><p>" ++ with_breaks s more)%string
  end.

(** The cut is at maximal runs: no segment holds a line feed, and only the
    first and the last segment may be empty. *)
Fixpoint maximal_runs (first : string) (rest : list (nat * string)) : bool :=
  negb (has_newline first)
  && match rest with
     | [] => true
     | (n, s) :: more =>
         (negb (is_empty s) || match more with [] => true | _ => false end)
         && maximal_runs s more
     end.

(** A text starts with a line feed. *)
Definition starts_with_newline (s : string) : bool :=
  match s with
  | EmptyString => false
  | String c _ => Ascii.eqb c newline
  end.

(** [createResp?.data?.metaobjectDefinitionCreate] of an answer. *)
Definition creation_part (j : value) : value :=
  getopt (getopt j "data") "metaobjectDefinitionCreate".

(** [result?.data?.metaobjectUpsert?.metaobject?.id] of an answer. *)
Definition upserted_id (j : value) : value :=
  getopt (getopt (getopt (getopt j "data") "metaobjectUpsert") "metaobject")
         "id".

(** A body that cannot be a record: a scalar or an array. *)
Definition not_an_object (b : value) : bool :=
  match b with
  | JObj _ => false
  | _ => true
  end.

End Spec2.
Import Spec2.

(** * Properties *)

(** ** Strings *)

Section StringFacts.

Lemma is_empty_true (s : string) : is_empty s = true <-> s = EmptyString.
Proof. destruct s; simpl; split; congruence. Qed.

Lemma is_empty_false (s : string) : is_empty s = false <-> s <> EmptyString.
Proof. destruct s; simpl; split; congruence. Qed.

Lemma trimStart_whitespace_only (s : string) :
  is_empty (trimStart s) = whitespace_only s.
Proof.
  induction s as [|c r IH]; simpl; [reflexivity|].
  destruct (is_ws c); simpl; [exact IH | reflexivity].
Qed.

Lemma trimEnd_head (c : ascii) (r : string) :
  is_ws c = false -> exists r', trimEnd (String c r) = String c r'.
Proof.
  intros Hc. simpl. destruct (trimEnd r) as [|c' r'].
  - rewrite Hc. now exists EmptyString.
  - now exists (String c' r').
Qed.

Lemma trimStart_head (s : string) (c : ascii) (r : string) :
  trimStart s = String c r -> is_ws c = false.
Proof.
  induction s as [|a s IH]; simpl; [discriminate|].
  destruct (is_ws a) eqn:Ha; [exact IH|].
  intros E. injection E as -> _. exact Ha.
Qed.

(** Trimming leaves the empty text exactly for texts of white space. *)
Lemma trim_whitespace_only (s : string) :
  is_empty (trim s) = whitespace_only s.
Proof.
  unfold trim. rewrite <- trimStart_whitespace_only.
  destruct (trimStart s) as [|c r] eqn:E; [reflexivity|].
  destruct (trimEnd_head c r (trimStart_head _ _ _ E)) as [r' ->].
  reflexivity.
Qed.

Lemma trimEnd_idempotent (s : string) : trimEnd (trimEnd s) = trimEnd s.
Proof.
  induction s as [|c r IH]; simpl; [reflexivity|].
  destruct (trimEnd r) as [|c' r'] eqn:E.
  - destruct (is_ws c) eqn:Hc; simpl; [reflexivity | now rewrite Hc].
  - cbn [trimEnd]. cbn [trimEnd] in IH. rewrite IH. reflexivity.
Qed.

Lemma trimStart_fixed (c : ascii) (r : string) :
  is_ws c = false -> trimStart (String c r) = String c r.
Proof. intros H. simpl. now rewrite H. Qed.

(** A trimmed text has no white space left at either end. *)
Lemma trim_trimmed (s : string) :
  trimStart (trim s) = trim s /\ trimEnd (trim s) = trim s.
Proof.
  unfold trim. split; [|apply trimEnd_idempotent].
  destruct (trimStart s) as [|c r] eqn:E; [reflexivity|].
  pose proof (trimStart_head _ _ _ E) as Hc.
  destruct (trimEnd_head c r Hc) as [r' ->].
  now apply trimStart_fixed.
Qed.

Lemma trim_idempotent (s : string) : trim (trim s) = trim s.
Proof.
  destruct (trim_trimmed s) as [H1 H2].
  unfold trim at 1. now rewrite H1, H2.
Qed.

End StringFacts.

Section CaseFacts.

Lemma ascii_of_nat_inj (n m : nat) :
  n < 256 -> m < 256 -> ascii_of_nat n = ascii_of_nat m -> n = m.
Proof.
  intros Hn Hm E.
  rewrite <- (nat_ascii_embedding n Hn), <- (nat_ascii_embedding m Hm).
  now rewrite E.
Qed.

Lemma nat_of_ascii_inj (c d : ascii) :
  nat_of_ascii c = nat_of_ascii d -> c = d.
Proof.
  intros E. rewrite <- (ascii_nat_embedding c), <- (ascii_nat_embedding d).
  now rewrite E.
Qed.

(** A code unit lowers to the letter [d] exactly when it is [d] in one of
    its two cases. *)
Lemma lower_char_letter (c d : ascii) :
  is_lower_letter d = true ->
  lower_char c = d <-> c = d \/ c = upper_char d.
Proof.
  unfold is_lower_letter, lower_char, upper_char.
  pose proof (nat_ascii_bounded c) as Bc.
  pose proof (nat_ascii_bounded d) as Bd.
  set (n := nat_of_ascii c) in *. set (m := nat_of_ascii d) in *.
  intros Hd. apply andb_true_iff in Hd as [H1 H2].
  apply Nat.leb_le in H1, H2.
  assert (Em : ((97 <=? m) && (m <=? 122)) = true).
  { apply andb_true_iff; split; now apply Nat.leb_le. }
  rewrite Em.
  destruct (((65 <=? n) && (n <=? 90))
            || ((192 <=? n) && (n <=? 222) && negb (n =? 215))) eqn:Hn.
  - apply orb_true_iff in Hn as [Hn|Hn].
    + apply andb_true_iff in Hn as [A B]. apply Nat.leb_le in A, B.
      split.
      * intros E. right. apply nat_of_ascii_inj. fold n.
        rewrite nat_ascii_embedding by lia.
        rewrite <- (ascii_nat_embedding d) in E. fold m in E.
        apply ascii_of_nat_inj in E; lia.
      * intros [E|E].
        -- exfalso. subst c. unfold n, m in *. lia.
        -- assert (n = m - 32) as En.
           { unfold n. rewrite E. apply nat_ascii_embedding. lia. }
           rewrite En. replace (m - 32 + 32) with m by lia.
           apply ascii_nat_embedding.
    + apply andb_true_iff in Hn as [Hn C].
      apply andb_true_iff in Hn as [A B]. apply Nat.leb_le in A, B.
      split.
      * intros E. exfalso.
        rewrite <- (ascii_nat_embedding d) in E. fold m in E.
        apply ascii_of_nat_inj in E; lia.
      * intros [E|E]; exfalso.
        -- subst c. unfold n, m in *. lia.
        -- assert (n = m - 32) as En.
           { unfold n. rewrite E. apply nat_ascii_embedding. lia. }
           lia.
  - apply orb_false_iff in Hn as [Hn _].
    split; [intros E; now left|].
    intros [E|E]; [exact E|exfalso].
    assert (n = m - 32) as En.
    { unfold n. rewrite E. apply nat_ascii_embedding. lia. }
    apply andb_false_iff in Hn as [Hn|Hn]; apply Nat.leb_gt in Hn; lia.
Qed.

(** Lowering a text gives the lower-case text [t] exactly for the case
    variants of [t]. *)
Lemma toLowerCase_case_variant (t : string) :
  lower_letters t = true ->
  forall s, toLowerCase s = t <-> case_variant s t.
Proof.
  induction t as [|d t IH]; intros Ht s.
  - destruct s; simpl; split; intros H; try discriminate;
      try constructor; inversion H.
  - simpl in Ht. apply andb_true_iff in Ht as [Hd Ht].
    destruct s as [|c s]; simpl.
    + split; intros H; [discriminate | inversion H].
    + split.
      * intros E. injection E as Ec Es.
        constructor; [now apply lower_char_letter | now apply IH].
      * intros H. inversion H; subst. f_equal.
        -- now apply lower_char_letter.
        -- now apply IH.
Qed.

End CaseFacts.

Section ConversionFacts.

Lemma string_of_uint_head (d : Decimal.uint) :
  d <> Decimal.Nil ->
  exists c r, NilEmpty.string_of_uint d = String c r /\ is_ws c = false.
Proof.
  destruct d; intros H; try congruence; simpl; eexists; eexists;
    (split; [reflexivity | reflexivity]).
Qed.

(** The text of a number is never blank. *)
Lemma string_of_Z_not_blank (n : Z) : whitespace_only (string_of_Z n) = false.
Proof.
  unfold string_of_Z.
  destruct n as [|p|p]; simpl; try reflexivity.
  destruct (string_of_uint_head (Pos.to_uint p)) as (c & r & -> & Hc).
  - apply DecimalPos.Unsigned.to_uint_nonnil.
  - simpl. now rewrite Hc.
Qed.

Lemma join_from_returns (item : value -> outcome string) (l : list value) :
  Forall (fun x => exists s, item x = Ret s) l ->
  forall acc, exists s, join_from item acc l = Ret s.
Proof.
  induction 1 as [|x l [t Ht] _ IH]; intros acc; simpl.
  - now exists acc.
  - rewrite Ht. simpl. apply IH.
Qed.

(** A value with no object inside always has a text. *)
Lemma scalar_or_list_ToString (v : value) :
  scalar_or_list v = true -> exists s, ToString v = Ret s.
Proof.
  induction v as [| |b|n|s|items IH|props _] using value_induction;
    intros Hv; simpl in *; try (eexists; reflexivity); try discriminate.
  - destruct b; eexists; reflexivity.
  - assert (Hall : Forall (fun x => exists s,
               (if nullish x then Ret EmptyString else ToString x) = Ret s)
               items).
    { rewrite forallb_forall in Hv. rewrite Forall_forall in IH |- *.
      intros x Hx. destruct (nullish x); [now eexists|].
      apply IH; auto. }
    destruct items as [|x rest]; [now eexists|].
    inversion Hall as [|? ? [s Hs] Hrest]; subst.
    rewrite Hs. simpl. now apply join_from_returns.
Qed.

Lemma assoc_scalar_or_list (props : list (string * value)) (k : string) :
  forallb (fun kv => scalar_or_list (snd kv)) props = true ->
  scalar_or_list (match assoc k props with
                  | Some x => x
                  | None => JUndefined
                  end) = true.
Proof.
  induction props as [|[k' v] rest IH]; simpl; [reflexivity|].
  intros H. apply andb_true_iff in H as [Hv Hrest].
  destruct (String.eqb k k'); [exact Hv | now apply IH].
Qed.

(** Every alias value of an ExternalRecord has a text. *)
Lemma ExternalRecord_alias_text (payload : value) (k : string) :
  ExternalRecord payload = true ->
  exists s, ToString (getopt payload k) = Ret s.
Proof.
  destruct payload; simpl; try discriminate.
  intros H. apply scalar_or_list_ToString.
  unfold getopt; simpl. now apply assoc_scalar_or_list.
Qed.

End ConversionFacts.

(** ** The alias lookup *)

Section PickFacts.

Import Cognito.

Lemma populated_inv (v : value) :
  populated v = true ->
  nullish v = false /\
  exists s, ToString v = Ret s /\ whitespace_only s = false.
Proof.
  unfold populated. intros H. apply andb_true_iff in H as [Hn Ht].
  apply negb_true_iff in Hn. split; [exact Hn|].
  destruct (ToString v) as [s|]; [|discriminate].
  exists s. split; [reflexivity | now apply negb_true_iff].
Qed.

Lemma blank_inv (v : value) :
  blank v = true ->
  nullish v = true \/
  exists s, ToString v = Ret s /\ whitespace_only s = true.
Proof.
  unfold blank. intros H. apply orb_true_iff in H as [H|H]; [now left|].
  right. destruct (ToString v) as [s|]; [|discriminate]. now exists s.
Qed.

Lemma blank_not_populated (v : value) :
  blank v = true -> populated v = false.
Proof.
  unfold blank, populated. destruct (nullish v); simpl; [reflexivity|].
  destruct (ToString v); simpl; [|reflexivity].
  intros ->. reflexivity.
Qed.

(** One step of [pick], on the first alias. *)
Lemma pick_cons (payload : value) (k : string) (rest : list string)
    (fallback : value) :
  (populated (getopt payload k) = true /\
   pick payload (k :: rest) fallback = Ret (getopt payload k))
  \/ (blank (getopt payload k) = true /\
      pick payload (k :: rest) fallback = pick payload rest fallback)
  \/ (populated (getopt payload k) = false /\
      blank (getopt payload k) = false /\
      exists e, pick payload (k :: rest) fallback = Throw e).
Proof.
  unfold populated, blank. simpl.
  destruct (nullish (getopt payload k)) eqn:Hn; simpl.
  - right; left. split; reflexivity.
  - destruct (ToString (getopt payload k)) as [s|e]; simpl.
    + rewrite trim_whitespace_only.
      destruct (whitespace_only s); simpl.
      * right; left. split; reflexivity.
      * left. split; reflexivity.
    + right; right. repeat split. now exists e.
Qed.

(** Whatever [pick] returns is the first populated alias value, or the
    fallback when there is none. *)
Lemma pick_refines (payload : value) (keys : list string) (fallback v : value) :
  pick payload keys fallback = Ret v ->
  v = or_fallback (first_populated payload keys) fallback.
Proof.
  unfold first_populated, alias_values.
  induction keys as [|k rest IH]; intros H.
  - simpl in H. now injection H as <-.
  - destruct (pick_cons payload k rest fallback)
      as [[Hp E]|[[Hb E]|(_ & _ & e & E)]]; rewrite E in H.
    + injection H as <-. cbn [map find]. now rewrite Hp.
    + cbn [map find]. rewrite (blank_not_populated _ Hb). now apply IH.
    + discriminate.
Qed.

(** [pick] returns as soon as every alias value has a text. *)
Lemma pick_returns (payload : value) (keys : list string) (fallback : value) :
  (forall k, In k keys -> exists s, ToString (getopt payload k) = Ret s) ->
  pick payload keys fallback
  = Ret (or_fallback (first_populated payload keys) fallback).
Proof.
  unfold first_populated, alias_values.
  induction keys as [|k rest IH]; intros H; [reflexivity|].
  destruct (pick_cons payload k rest fallback)
    as [[Hp E]|[[Hb E]|(Hp & Hb & _)]].
  - rewrite E. cbn [map find]. now rewrite Hp.
  - rewrite E. cbn [map find]. rewrite (blank_not_populated _ Hb).
    apply IH. intros k' Hk'. apply H. now right.
  - exfalso. destruct (H k (or_introl eq_refl)) as [s Hs].
    unfold populated, blank in Hp, Hb. rewrite Hs in Hp, Hb.
    destruct (nullish (getopt payload k)); simpl in *; [discriminate|].
    destruct (whitespace_only s); discriminate.
Qed.

Lemma first_populated_Some (payload : value) (keys : list string) (v : value) :
  first_populated payload keys = Some v ->
  populated v = true /\ exists k, In k keys /\ v = getopt payload k.
Proof.
  unfold first_populated, alias_values. intros H.
  apply find_some in H as [Hin Hp]. split; [exact Hp|].
  apply in_map_iff in Hin as (k & <- & Hk). now exists k.
Qed.

Lemma first_populated_None (payload : value) (keys : list string) :
  first_populated payload keys = None <->
  forall k, In k keys -> populated (getopt payload k) = false.
Proof.
  unfold first_populated, alias_values. split.
  - intros H k Hk. apply (find_none _ _ H). now apply in_map.
  - intros H. induction keys as [|k rest IH]; [reflexivity|].
    cbn [map find]. rewrite (H k (or_introl eq_refl)).
    apply IH. intros k' Hk'. apply H. now right.
Qed.

(** The text of what [pick] selects is never blank. *)
Lemma pick_string_selected (payload : value) (keys : list string)
    (fallback v : value) :
  first_populated payload keys = Some v ->
  pick payload keys fallback = Ret v ->
  exists s, pick_string payload keys fallback = Ret s /\
            ToString v = Ret s /\ whitespace_only s = false.
Proof.
  intros Hf Hp. apply first_populated_Some in Hf as [Hv _].
  apply populated_inv in Hv as (_ & s & Hs & Hw).
  exists s. unfold pick_string. rewrite Hp. simpl. auto.
Qed.

End PickFacts.

(** ** The normalizer *)

Section NormalizeFacts.

Import Cognito.

Ltac step_normalize H :=
  repeat match type of H with
         | context [pick_string ?p ?k ?f] =>
             let E := fresh "E" in
             destruct (pick_string p k f) eqn:E; cbn [bind] in H;
             [|discriminate H]
         | context [pick_bool ?p ?k] =>
             let E := fresh "E" in
             destruct (pick_bool p k) eqn:E; cbn [bind] in H;
             [|discriminate H]
         | context [is_empty ?x] =>
             let E := fresh "E" in
             destruct (is_empty x) eqn:E; [discriminate H|]
         end.

(** Where each constant of a normalized record comes from. *)
Lemma normalize_fields (payload : value) (r : NormalizedRecord) :
  normalize payload = Ret (Some r) ->
  (exists s, pick_string payload MAP.externalId (JStr EmptyString) = Ret s /\
             externalId r = trim s /\ is_empty (trim s) = false)
  /\ (exists s, pick_string payload MAP.name (JStr "Unnamed") = Ret s /\
                name r = trim s)
  /\ (exists s, pick_string payload MAP.status (JStr "available") = Ret s /\
                statusRaw r = toLowerCase s)
  /\ pick_string payload MAP.species (JStr "Dog") = Ret (species r)
  /\ pick_string payload MAP.breed (JStr EmptyString) = Ret (breed r)
  /\ pick_string payload MAP.age (JStr EmptyString) = Ret (age r)
  /\ pick_string payload MAP.gender (JStr EmptyString) = Ret (gender r)
  /\ pick_string payload MAP.size (JStr EmptyString) = Ret (size r)
  /\ pick_string payload MAP.location (JStr EmptyString) = Ret (location r)
  /\ pick_string payload MAP.adoptionFee (JStr EmptyString)
     = Ret (adoptionFee r)
  /\ pick_string payload MAP.description (JStr EmptyString)
     = Ret (description r)
  /\ pick_string payload MAP.imageUrl (JStr EmptyString) = Ret (imageUrl r)
  /\ galleryUrls r = gallery_of (gallery_value payload)
  /\ pick_bool payload MAP.goodWithKids = Ret (good_with_kids r)
  /\ pick_bool payload MAP.goodWithDogs = Ret (good_with_dogs r)
  /\ pick_bool payload MAP.goodWithCats = Ret (good_with_cats r)
  /\ pick_bool payload MAP.houseTrained = Ret (house_trained r)
  /\ pick_bool payload MAP.spayedNeutered = Ret (spayed_neutered r)
  /\ pick_bool payload MAP.vaccinated = Ret (vaccinated r)
  /\ publishStatus r = publish_of (statusRaw r).
Proof.
  unfold normalize. intros H. step_normalize H.
  injection H as <-. cbn.
  repeat match goal with
         | |- _ /\ _ => split
         | |- exists s, _ => eexists; repeat split; eauto
         end; reflexivity.
Qed.

(** The early return of line 107 is taken exactly when the identity text
    trims to nothing. *)
Lemma normalize_None (payload : value) :
  normalize payload = Ret None <->
  exists s, pick_string payload MAP.externalId (JStr EmptyString) = Ret s /\
            is_empty (trim s) = true.
Proof.
  unfold normalize. split.
  - intros H.
    destruct (pick_string payload MAP.externalId (JStr EmptyString))
      as [s|] eqn:E; cbn [bind] in H; [|discriminate].
    exists s. split; [reflexivity|].
    destruct (is_empty (trim s)) eqn:Ee; [reflexivity|exfalso].
    step_normalize H. discriminate.
  - intros (s & -> & E). cbn [bind]. now rewrite E.
Qed.

Lemma pick_string_returns (payload : value) (keys : list string)
    (fallback : value) :
  ExternalRecord payload = true ->
  (exists t, ToString fallback = Ret t) ->
  exists s, pick_string payload keys fallback = Ret s.
Proof.
  intros Hp [t Ht]. unfold pick_string.
  rewrite pick_returns
    by (intros k _; now apply ExternalRecord_alias_text).
  cbn [bind].
  destruct (first_populated payload keys) as [v|] eqn:E; cbn.
  - apply first_populated_Some in E as [Hv _].
    apply populated_inv in Hv as (_ & s & Hs & _). now exists s.
  - now exists t.
Qed.

Lemma pick_bool_returns (payload : value) (keys : list string) :
  ExternalRecord payload = true ->
  exists b, pick_bool payload keys = Ret b.
Proof.
  intros Hp. unfold pick_bool.
  rewrite pick_returns
    by (intros k _; now apply ExternalRecord_alias_text).
  cbn [bind]. eexists; reflexivity.
Qed.

(** On an ExternalRecord no conversion throws: normalization either takes
    the early return or yields a record. *)
Lemma normalize_returns (payload : value) :
  ExternalRecord payload = true ->
  exists o, normalize payload = Ret o.
Proof.
  intros Hp. unfold normalize.
  repeat match goal with
         | |- context [pick_string payload ?k ?f] =>
             let s := fresh "s" in
             let E := fresh "E" in
             destruct (pick_string_returns payload k f Hp) as [s E];
             [eexists; reflexivity|];
             rewrite E; cbn [bind]
         | |- context [pick_bool payload ?k] =>
             let b := fresh "b" in
             let E := fresh "E" in
             destruct (pick_bool_returns payload k Hp) as [b E];
             rewrite E; cbn [bind]
         | |- context [is_empty ?x] =>
             destruct (is_empty x); [eexists; reflexivity|]
         end.
  eexists; reflexivity.
Qed.

End NormalizeFacts.

(** ** Identity *)

Section Identity.

Import Cognito.

Lemma pick_all_blank (payload : value) (keys : list string) (fallback : value) :
  (forall k, In k keys -> blank (getopt payload k) = true) ->
  pick payload keys fallback = Ret fallback.
Proof.
  induction keys as [|k rest IH]; intros H; [reflexivity|].
  destruct (pick_cons payload k rest fallback)
    as [[Hp _]|[[_ E]|(_ & Hb & _)]].
  - rewrite (blank_not_populated _ (H k (or_introl eq_refl))) in Hp.
    discriminate.
  - rewrite E. apply IH. intros k' Hk'. apply H. now right.
  - rewrite (H k (or_introl eq_refl)) in Hb. discriminate.
Qed.

Lemma pick_fallback_blank (payload : value) (keys : list string)
    (fallback v : value) :
  pick payload keys fallback = Ret v ->
  first_populated payload keys = None ->
  forall k, In k keys -> blank (getopt payload k) = true.
Proof.
  induction keys as [|k rest IH]; intros Hp Hf k' Hk'; [destruct Hk'|].
  pose proof (proj1 (first_populated_None _ _) Hf) as Hnone.
  destruct (pick_cons payload k rest fallback)
    as [[Hv _]|[[Hb E]|(_ & _ & e & E)]].
  - rewrite (Hnone k (or_introl eq_refl)) in Hv. discriminate.
  - destruct Hk' as [<-|Hk']; [exact Hb|].
    rewrite E in Hp. apply (IH Hp); [|exact Hk'].
    apply first_populated_None. intros k0 Hk0. apply Hnone. now right.
  - rewrite E in Hp. discriminate.
Qed.

(** The early return is taken exactly when every identity alias is blank. *)
Lemma missing_identity_iff (payload : value) :
  normalize payload = Ret None <->
  forall k, In k MAP.externalId -> blank (getopt payload k) = true.
Proof.
  rewrite normalize_None. split.
  - intros (s & Hs & He). unfold pick_string in Hs.
    destruct (pick payload MAP.externalId (JStr EmptyString)) as [v|] eqn:Hp;
      cbn [bind] in Hs; [|discriminate].
    destruct (first_populated payload MAP.externalId) as [v'|] eqn:Hf.
    + exfalso. pose proof (pick_refines _ _ _ _ Hp) as Hv.
      rewrite Hf in Hv. cbn in Hv. subst v'.
      apply first_populated_Some in Hf as [Hpop _].
      apply populated_inv in Hpop as (_ & s' & Hs' & Hw).
      rewrite Hs in Hs'. injection Hs' as <-.
      rewrite trim_whitespace_only in He. congruence.
    + now apply (pick_fallback_blank _ _ _ _ Hp).
  - intros H. exists EmptyString. unfold pick_string.
    rewrite (pick_all_blank _ _ _ H). split; reflexivity.
Qed.

(** With the identity missing the handler sends nothing to the store. *)
Lemma handler_missing_identity {Store : Type}
    (fetch : Store -> request -> fetch_result * Store)
    (WEBHOOK_SECRET : string) (req : VercelRequest) (w : world) :
  normalize (payload_of (req_body req)) = Ret None ->
  snd (handler fetch WEBHOOK_SECRET req w) = w /\
  (method req = "POST" ->
   x_webhook_secret req = JStr WEBHOOK_SECRET ->
   WEBHOOK_SECRET <> EmptyString ->
   fst (handler fetch WEBHOOK_SECRET req w)
   = Ret {| code := 400;
            sent := Plain "Missing external id (e.g., Entry ID)" |}).
Proof.
  intros Hn. unfold handler, catch. rewrite Hn. split.
  - destruct (negb (method req =? "POST")%string); [reflexivity|].
    destruct (negb (truthy (x_webhook_secret req))
              || negb (is_string_equal (x_webhook_secret req) WEBHOOK_SECRET));
      reflexivity.
  - intros Hm Hs Hne. rewrite Hm, Hs. cbn.
    rewrite String.eqb_refl.
    destruct WEBHOOK_SECRET; [congruence | reflexivity].
Qed.

(** C4. [normalize] fails with MissingIdentity (the early return of line
    107) exactly when every identity alias of the record is absent, null,
    or has a text of white space only.  The externalId of a normalized
    record is trimmed and not empty, and an ExternalRecord with a populated
    identity alias is normalized to such a record.  On MissingIdentity the
    handler replies 400 and has sent no request to the store: no asset
    upload, no upsert. *)
Theorem normalize_identity (payload : value) :
  (normalize payload = Ret None <->
   forall k, In k MAP.externalId -> blank (getopt payload k) = true)
  /\ (forall r, normalize payload = Ret (Some r) ->
        trimStart (externalId r) = externalId r /\
        trimEnd (externalId r) = externalId r /\
        externalId r <> EmptyString)
  /\ (ExternalRecord payload = true ->
      (exists k, In k MAP.externalId /\ populated (getopt payload k) = true) ->
      exists r, normalize payload = Ret (Some r))
  /\ (forall (Store : Type) (fetch : Store -> request -> fetch_result * Store)
             (WEBHOOK_SECRET : string) (req : VercelRequest) (w : world),
        payload = payload_of (req_body req) ->
        normalize payload = Ret None ->
        snd (handler fetch WEBHOOK_SECRET req w) = w /\
        (method req = "POST" ->
         x_webhook_secret req = JStr WEBHOOK_SECRET ->
         WEBHOOK_SECRET <> EmptyString ->
         fst (handler fetch WEBHOOK_SECRET req w)
         = Ret {| code := 400;
                  sent := Plain "Missing external id (e.g., Entry ID)" |})).
Proof.
  split; [apply missing_identity_iff|]. split; [|split].
  - intros r Hr.
    destruct (normalize_fields _ _ Hr) as ((s & _ & -> & He) & _).
    destruct (trim_trimmed s) as [H1 H2].
    repeat split; auto. now apply is_empty_false.
  - intros Hp (k & Hk & Hpop).
    destruct (normalize_returns payload Hp) as [[r|] Ho]; [now exists r|].
    exfalso. pose proof (proj1 (missing_identity_iff payload) Ho k Hk) as Hb.
    rewrite (blank_not_populated _ Hb) in Hpop. discriminate.
  - intros Store fetch secret req w -> Hn.
    now apply handler_missing_identity.
Qed.

Lemma normalize_identity_witness :
  exists r, normalize (JObj [("id", JStr " 7 ")]) = Ret (Some r).
Proof.
  destruct (normalize_identity (JObj [("id", JStr " 7 ")]))
    as (_ & _ & H & _).
  apply H; [reflexivity|].
  exists "id". split; [simpl; auto | reflexivity].
Defined.

(** C8. The record with Entry ID "42", Name "Rex", Status "AVAILABLE" and
    Good With Kids "true" is normalized to externalId "42", name "Rex",
    status "available", good_with_kids true and publication state Active. *)
Theorem normalize_example :
  exists r,
    normalize (JObj [("Entry ID", JStr "42"); ("Name", JStr "Rex");
                     ("Status", JStr "AVAILABLE");
                     ("Good With Kids", JStr "true")])
    = Ret (Some r)
    /\ externalId r = "42" /\ name r = "Rex" /\ statusRaw r = "available"
    /\ good_with_kids r = true /\ publishStatus r = ACTIVE.
Proof. eexists. split; [reflexivity|]. cbn. repeat split. Qed.

End Identity.

(** ** Publication state *)

Section PublicationState.

Import Cognito.

Lemma publish_of_active (s : string) :
  publish_of (toLowerCase s) = ACTIVE <-> case_variant s "available".
Proof.
  rewrite <- (toLowerCase_case_variant "available" eq_refl).
  unfold publish_of.
  destruct (String.eqb_spec (toLowerCase s) "available") as [E|E];
    split; intros H; try reflexivity; try assumption; try discriminate.
  contradiction.
Qed.

(** Counterexample to C1 as stated: with every status alias absent the
    publication state is Active, not Draft. *)
Lemma absent_status_is_active :
  let payload := JObj [("Entry ID", JStr "42")] in
  (forall k, In k MAP.status -> getopt payload k = JUndefined)
  /\ exists r, normalize payload = Ret (Some r)
              /\ publishStatus r = ACTIVE /\ publishStatus r <> DRAFT.
Proof.
  cbv zeta. split.
  - intros k [<-|[<-|[]]]; reflexivity.
  - eexists. split; [reflexivity|]. cbn. split; [reflexivity | discriminate].
Qed.

(** C1, amended.  The text the status is read from is that of the first
    populated status alias, or the default "available" when there is none.
    The publication state of a normalized record is Active exactly when
    that text is a case variant of "available", and Draft for every other
    text; when every status alias is absent or blank the default applies
    and the state is Active. *)
Theorem publication_state (payload : value) (r : NormalizedRecord) :
  normalize payload = Ret (Some r) ->
  exists s,
    ToString (or_fallback (first_populated payload MAP.status)
                          (JStr "available")) = Ret s
    /\ statusRaw r = toLowerCase s
    /\ (publishStatus r = ACTIVE <-> case_variant s "available")
    /\ (publishStatus r = DRAFT <-> ~ case_variant s "available")
    /\ ((forall k, In k MAP.status -> blank (getopt payload k) = true) ->
        publishStatus r = ACTIVE).
Proof.
  intros Hr.
  destruct (normalize_fields _ _ Hr)
    as (_ & _ & (s & Hs & Hraw) & Hrest).
  assert (Hpub : publishStatus r = publish_of (statusRaw r)) by apply Hrest.
  clear Hrest. unfold pick_string in Hs.
  destruct (pick payload MAP.status (JStr "available")) as [v|] eqn:Hp;
    cbn [bind] in Hs; [|discriminate].
  pose proof (pick_refines _ _ _ _ Hp) as Hv.
  exists s. rewrite <- Hv, Hpub, Hraw.
  split; [exact Hs|]. split; [reflexivity|].
  split; [apply publish_of_active|]. split.
  - rewrite <- publish_of_active.
    destruct (publish_of (toLowerCase s)); split; intros H;
      try reflexivity; try discriminate; congruence.
  - intros Hb. rewrite (pick_all_blank _ _ _ Hb) in Hp.
    injection Hp as <-. cbn in Hs. injection Hs as <-. reflexivity.
Qed.

Lemma publication_state_witness :
  exists s,
    ToString (or_fallback (first_populated Examples.rex_payload MAP.status)
                          (JStr "available")) = Ret s
    /\ statusRaw Examples.rex = toLowerCase s
    /\ (publishStatus Examples.rex = ACTIVE <-> case_variant s "available")
    /\ (publishStatus Examples.rex = DRAFT <-> ~ case_variant s "available")
    /\ ((forall k, In k MAP.status ->
                   blank (getopt Examples.rex_payload k) = true) ->
        publishStatus Examples.rex = ACTIVE).
Proof.
  apply (publication_state Examples.rex_payload Examples.rex).
  reflexivity.
Defined.

End PublicationState.

(** ** Alias priority *)

Section AliasPriority.

Import Cognito.

Lemma pick_string_chosen (payload : value) (keys : list string)
    (fallback : value) (s : string) :
  pick_string payload keys fallback = Ret s ->
  ToString (or_fallback (first_populated payload keys) fallback) = Ret s.
Proof.
  unfold pick_string. intros H.
  destruct (pick payload keys fallback) as [v|] eqn:Hp;
    cbn [bind] in H; [|discriminate].
  now rewrite <- (pick_refines _ _ _ _ Hp).
Qed.

Lemma pick_bool_chosen (payload : value) (keys : list string) (b : bool) :
  pick_bool payload keys = Ret b ->
  b = truthy (or_fallback (first_populated payload keys) (JBool false)).
Proof.
  unfold pick_bool. intros H.
  destruct (pick payload keys (JBool false)) as [v|] eqn:Hp;
    cbn [bind] in H; [|discriminate].
  injection H as <-. now rewrite <- (pick_refines _ _ _ _ Hp).
Qed.

(** The [??] chain of line 123 stops at the first alias that is neither
    [undefined] nor [null]. *)
Lemma gallery_value_first_present (payload : value) :
  match first_present payload MAP.gallery with
  | Some v => gallery_value payload = v
  | None => nullish (gallery_value payload) = true
  end.
Proof.
  unfold first_present, alias_values, gallery_value, coalesce.
  cbn [MAP.gallery map find nth].
  generalize (getopt payload "Gallery Urls") (getopt payload "Gallery")
             (getopt payload "image_urls").
  intros a b c.
  cbn.
  destruct (nullish a) eqn:Ea; cbn; rewrite ?Ea; [|reflexivity].
  destruct (nullish b) eqn:Eb; cbn; rewrite ?Eb; [|reflexivity].
  destruct (nullish c) eqn:Ec; cbn; rewrite ?Ec; reflexivity.
Qed.

Lemma gallery_of_nullish (g : value) : nullish g = true -> gallery_of g = [].
Proof. destruct g; simpl; try discriminate; reflexivity. Qed.

(** Counterexample to C6 as stated: the first gallery alias with a text
    that is not blank is "Gallery", a list of one valid URL, yet the
    normalized gallery is empty, the empty string under "Gallery Urls"
    having stopped the chain. *)
Lemma gallery_skips_populated_alias :
  first_populated Examples.shadowed_gallery_payload MAP.gallery
  = Some (JArr [JStr "https://cdn.example/a.jpg"])
  /\ gallery_of (JArr [JStr "https://cdn.example/a.jpg"])
     = ["https://cdn.example/a.jpg"]
  /\ exists r, normalize Examples.shadowed_gallery_payload = Ret (Some r)
               /\ galleryUrls r = []
               /\ galleryUrls r <> ["https://cdn.example/a.jpg"].
Proof.
  split; [reflexivity|]. split; [reflexivity|].
  eexists. split; [reflexivity|]. cbn. split; [reflexivity | discriminate].
Qed.

(** C6, amended.  For every canonical field other than the gallery, the
    normalized value is read from the first alias, in declared order, whose
    value is defined, not null, and has a text that is not blank, and from
    the declared fallback when no alias matches.  The gallery is read from
    the first alias whose value is neither undefined nor null, whatever its
    text, and is empty when there is none. *)
Theorem alias_priority (payload : value) (r : NormalizedRecord) :
  normalize payload = Ret (Some r) ->
  let chosen keys fallback :=
    or_fallback (first_populated payload keys) fallback in
  (exists v s, first_populated payload MAP.externalId = Some v /\
               ToString v = Ret s /\ externalId r = trim s)
  /\ (exists s, ToString (chosen MAP.name (JStr "Unnamed")) = Ret s /\
                name r = trim s)
  /\ (exists s, ToString (chosen MAP.status (JStr "available")) = Ret s /\
                statusRaw r = toLowerCase s)
  /\ ToString (chosen MAP.species (JStr "Dog")) = Ret (species r)
  /\ ToString (chosen MAP.breed (JStr EmptyString)) = Ret (breed r)
  /\ ToString (chosen MAP.age (JStr EmptyString)) = Ret (age r)
  /\ ToString (chosen MAP.gender (JStr EmptyString)) = Ret (gender r)
  /\ ToString (chosen MAP.size (JStr EmptyString)) = Ret (size r)
  /\ ToString (chosen MAP.location (JStr EmptyString)) = Ret (location r)
  /\ ToString (chosen MAP.adoptionFee (JStr EmptyString))
     = Ret (adoptionFee r)
  /\ ToString (chosen MAP.description (JStr EmptyString))
     = Ret (description r)
  /\ ToString (chosen MAP.imageUrl (JStr EmptyString)) = Ret (imageUrl r)
  /\ good_with_kids r = truthy (chosen MAP.goodWithKids (JBool false))
  /\ good_with_dogs r = truthy (chosen MAP.goodWithDogs (JBool false))
  /\ good_with_cats r = truthy (chosen MAP.goodWithCats (JBool false))
  /\ house_trained r = truthy (chosen MAP.houseTrained (JBool false))
  /\ spayed_neutered r = truthy (chosen MAP.spayedNeutered (JBool false))
  /\ vaccinated r = truthy (chosen MAP.vaccinated (JBool false))
  /\ galleryUrls r
     = match first_present payload MAP.gallery with
       | Some g => gallery_of g
       | None => []
       end.
Proof.
  intros Hr chosen. subst chosen.
  destruct (normalize_fields _ _ Hr)
    as ((s1 & H1 & E1 & N1) & (s2 & H2 & E2) & (s3 & H3 & E3) & H4 & H5 & H6
        & H7 & H8 & H9 & H10 & H11 & H12 & Hg & B1 & B2 & B3 & B4 & B5 & B6
        & _).
  repeat match goal with |- _ /\ _ => split end;
    try (now apply pick_string_chosen); try (now apply pick_bool_chosen).
  - apply pick_string_chosen in H1.
    destruct (first_populated payload MAP.externalId) as [v|];
      [now exists v, s1|].
    cbn in H1. injection H1 as <-. discriminate.
  - exists s2. split; [now apply pick_string_chosen | exact E2].
  - exists s3. split; [now apply pick_string_chosen | exact E3].
  - rewrite Hg. pose proof (gallery_value_first_present payload) as G.
    destruct (first_present payload MAP.gallery); [now rewrite G|].
    now apply gallery_of_nullish.
Qed.

Lemma alias_priority_witness :
  exists s,
    ToString (or_fallback (first_populated Examples.rex_payload MAP.name)
                          (JStr "Unnamed")) = Ret s
    /\ name Examples.rex = trim s.
Proof.
  apply (alias_priority Examples.rex_payload Examples.rex).
  reflexivity.
Defined.

End AliasPriority.

(** ** Boolean fields *)

Section BooleanFields.

Import Cognito.

(** A populated string is truthy. *)
Lemma populated_string_truthy (s : string) :
  populated (JStr s) = true -> truthy (JStr s) = true.
Proof. destruct s; [discriminate | reflexivity]. Qed.

(** The populated values that are falsy are the boolean false and the
    number 0. *)
Lemma populated_falsy (v : value) :
  populated v = true ->
  truthy v = false <-> v = JBool false \/ v = JNum 0.
Proof.
  intros Hp. split.
  - destruct v as [| |[]|[|p|p]|s| |]; simpl; intros H;
      try discriminate; auto.
    destruct s; discriminate.
  - intros [->| ->]; reflexivity.
Qed.

(** What a flag read by [!!pick(payload, keys, false)] is worth. *)
Lemma flag_rule (payload : value) (keys : list string) (b : bool) :
  b = truthy (or_fallback (first_populated payload keys) (JBool false)) ->
  (forall s, first_populated payload keys = Some (JStr s) -> b = true)
  /\ (b = true <->
      exists v, first_populated payload keys = Some v
                /\ v <> JBool false /\ v <> JNum 0)
  /\ (b = false <->
      first_populated payload keys = None
      \/ first_populated payload keys = Some (JBool false)
      \/ first_populated payload keys = Some (JNum 0)).
Proof.
  intros ->. destruct (first_populated payload keys) as [v|] eqn:E; cbn.
  - apply first_populated_Some in E as [Hp _].
    pose proof (populated_falsy v Hp) as F. split; [|split].
    + intros s [= ->]. now apply populated_string_truthy.
    + split.
      * intros Ht. exists v. split; [reflexivity|].
        split; intros ->; discriminate.
      * intros (v' & [= <-] & H1 & H2).
        destruct (truthy v); [reflexivity|].
        destruct (proj1 F eq_refl); contradiction.
    + rewrite F. split.
      * intros [->| ->]; auto.
      * intros [H|[[= ->]|[= ->]]]; [discriminate | now left | now right].
  - split; [discriminate|]. split.
    + split; [discriminate | intros (v & H & _); discriminate].
    + split; auto.
Qed.

(** C9. Each boolean field is true as soon as the first populated alias
    holds a string, the strings "false", "no" and "0" included, and more
    generally any value but the boolean false and the number 0; it is false
    only when no alias is populated (the fallback) or when the first
    populated alias holds a falsy value, which can only be the boolean
    false or the number 0. *)
Theorem boolean_fields (payload : value) (r : NormalizedRecord) :
  normalize payload = Ret (Some r) ->
  Forall (fun field : list string * bool =>
            let (keys, b) := field in
            (forall s, first_populated payload keys = Some (JStr s) ->
                       b = true)
            /\ (b = true <->
                exists v, first_populated payload keys = Some v
                          /\ v <> JBool false /\ v <> JNum 0)
            /\ (b = false <->
                first_populated payload keys = None
                \/ first_populated payload keys = Some (JBool false)
                \/ first_populated payload keys = Some (JNum 0)))
         [ (MAP.goodWithKids, good_with_kids r);
           (MAP.goodWithDogs, good_with_dogs r);
           (MAP.goodWithCats, good_with_cats r);
           (MAP.houseTrained, house_trained r);
           (MAP.spayedNeutered, spayed_neutered r);
           (MAP.vaccinated, vaccinated r) ]
  /\ populated (JStr "false") = true
  /\ populated (JStr "no") = true
  /\ populated (JStr "0") = true.
Proof.
  intros Hr.
  destruct (normalize_fields _ _ Hr)
    as (_ & _ & _ & _ & _ & _ & _ & _ & _ & _ & _ & _ & _
        & B1 & B2 & B3 & B4 & B5 & B6 & _).
  split; [|repeat split].
  repeat (apply Forall_cons;
          [apply flag_rule; now apply pick_bool_chosen|]).
  apply Forall_nil.
Qed.

Lemma boolean_fields_witness :
  good_with_kids Examples.flags = true
  /\ good_with_dogs Examples.flags = true
  /\ good_with_cats Examples.flags = true
  /\ (house_trained Examples.flags = false <->
      first_populated Examples.flags_payload MAP.houseTrained = None
      \/ first_populated Examples.flags_payload MAP.houseTrained
         = Some (JBool false)
      \/ first_populated Examples.flags_payload MAP.houseTrained
         = Some (JNum 0)).
Proof.
  destruct (boolean_fields Examples.flags_payload Examples.flags eq_refl)
    as [H _].
  pose proof (Forall_inv H) as K1. apply Forall_inv_tail in H.
  pose proof (Forall_inv H) as K2. apply Forall_inv_tail in H.
  pose proof (Forall_inv H) as K3. apply Forall_inv_tail in H.
  pose proof (Forall_inv H) as K4.
  cbv beta iota in K1, K2, K3, K4.
  destruct K1 as [K1 _], K2 as [K2 _], K3 as [K3 _], K4 as (_ & _ & K4).
  split; [now apply (K1 "false")|].
  split; [now apply (K2 "no")|].
  split; [now apply (K3 "0")|].
  exact K4.
Defined.

End BooleanFields.

(** ** Gallery *)

Section Gallery.

Import Cognito.

Lemma includes_comma_has_comma (s : string) :
  includes_comma s = true <-> has_comma s.
Proof.
  unfold has_comma. induction s as [|c r IH]; simpl.
  - split; [discriminate | intros []].
  - rewrite orb_true_iff, IH, Ascii.eqb_eq. split; intros [H|H]; auto.
Qed.

Lemma http_strings_valid (items : list value) (u : string) :
  In u (http_strings items) -> is_http_url u = true /\ In (JStr u) items.
Proof.
  induction items as [|x rest IH]; simpl; [intros []|].
  destruct x; try (intros H; destruct (IH H); auto).
  destruct (is_http_url s) eqn:E.
  - intros [<-|H]; [auto|]. destruct (IH H); auto.
  - intros H. destruct (IH H); auto.
Qed.

(** Every entry of a gallery has the http or https prefix. *)
Lemma gallery_of_valid (g : value) (u : string) :
  In u (gallery_of g) -> is_http_url u = true.
Proof.
  destruct g; simpl; try (intros []).
  - destruct (includes_comma s); [|intros []].
    intros H. now apply filter_In in H.
  - intros H. now apply http_strings_valid in H.
Qed.

(** C10. The gallery is read from the first gallery alias that is neither
    undefined nor null.  A string without a comma gives the empty gallery,
    even when it is a valid URL; entries come only from an array or from a
    string that contains a comma; an empty string under the first alias
    hides the later aliases. *)
Theorem gallery_rules (payload : value) (r : NormalizedRecord) :
  normalize payload = Ret (Some r) ->
  galleryUrls r = match first_present payload MAP.gallery with
                  | Some g => gallery_of g
                  | None => []
                  end
  /\ (forall s, first_present payload MAP.gallery = Some (JStr s) ->
                ~ has_comma s -> galleryUrls r = [])
  /\ (galleryUrls r <> [] ->
      exists g, first_present payload MAP.gallery = Some g /\
                ((exists items, g = JArr items)
                 \/ (exists s, g = JStr s /\ has_comma s)))
  /\ (getopt payload "Gallery Urls" = JStr EmptyString ->
      galleryUrls r = [])
  /\ gallery_of (JStr "https://cdn.example/a.jpg") = [].
Proof.
  intros Hr.
  assert (Hg : galleryUrls r = match first_present payload MAP.gallery with
                               | Some g => gallery_of g
                               | None => []
                               end).
  { destruct (normalize_fields _ _ Hr)
      as (_ & _ & _ & _ & _ & _ & _ & _ & _ & _ & _ & _ & Hg & _).
    rewrite Hg. pose proof (gallery_value_first_present payload) as G.
    destruct (first_present payload MAP.gallery); [now rewrite G|].
    now apply gallery_of_nullish. }
  split; [exact Hg|]. split; [|split; [|split]].
  - intros s Hs Hc. rewrite Hg, Hs. simpl.
    destruct (includes_comma s) eqn:E; [|reflexivity].
    exfalso. apply Hc. now apply includes_comma_has_comma.
  - intros Hne. rewrite Hg in Hne.
    destruct (first_present payload MAP.gallery) as [g|]; [|congruence].
    exists g. split; [reflexivity|].
    destruct g; simpl in Hne; try congruence.
    + right. exists s. split; [reflexivity|].
      apply includes_comma_has_comma.
      destruct (includes_comma s); [reflexivity | congruence].
    + left. now exists items.
  - intros H0. rewrite Hg. unfold first_present, alias_values.
    cbn [MAP.gallery map find]. rewrite H0. reflexivity.
  - reflexivity.
Qed.

Lemma gallery_rules_witness :
  galleryUrls (Examples.sample [] EmptyString) = []
  /\ (exists g,
        first_present Examples.twenty_payload MAP.gallery = Some g /\
        ((exists items, g = JArr items)
         \/ (exists s, g = JStr s /\ has_comma s)))
  /\ (exists g,
        first_present Examples.comma_gallery_payload MAP.gallery = Some g /\
        ((exists items, g = JArr items)
         \/ (exists s, g = JStr s /\ has_comma s)))
  /\ galleryUrls (Examples.sample [] EmptyString) = [].
Proof.
  destruct (gallery_rules Examples.single_url_payload
              (Examples.sample [] EmptyString) eq_refl)
    as (_ & Hstring & _).
  destruct (gallery_rules Examples.twenty_payload Examples.twenty eq_refl)
    as (_ & _ & Harray & _).
  destruct (gallery_rules Examples.comma_gallery_payload
              (Examples.sample
                 ["https://cdn.example/a.jpg"; "http://cdn.example/b.jpg"]
                 EmptyString) eq_refl)
    as (_ & _ & Hcomma & _).
  destruct (gallery_rules Examples.shadowed_gallery_payload
              (Examples.sample [] EmptyString) eq_refl)
    as (_ & _ & _ & Hshadow & _).
  split; [|split; [|split]].
  - apply (Hstring "https://cdn.example/a.jpg"); [reflexivity|].
    intros Hc. apply includes_comma_has_comma in Hc. discriminate Hc.
  - apply Harray. discriminate.
  - apply Hcomma. discriminate.
  - apply Hshadow. reflexivity.
Defined.

End Gallery.

(** ** Uploads and the upsert *)

Section Uploads.

Import Cognito.

Context {Store : Type}.
Variable fetch : Store -> request -> fetch_result * Store.

(** Every call of [gql] reaches the store once, whatever the answer. *)
Lemma gql_trace (q : request) (w : world) :
  snd (snd (gql fetch q w)) = snd w ++ [q].
Proof.
  destruct w as [st log]. unfold gql.
  destruct (fetch st q) as [[|resp] st']; [reflexivity|].
  destruct (json resp); [|reflexivity].
  destruct (negb (ok resp)); reflexivity.
Qed.

(** [gql] throws when the store fails. *)
Lemma gql_fails (q : request) (w : world) :
  store_fails fetch (fst w) q -> exists e, fst (gql fetch q w) = Throw e.
Proof.
  destruct w as [st log]. unfold store_fails, gql. simpl.
  destruct (fetch st q) as [[|resp] st']; simpl.
  - intros _. eexists; reflexivity.
  - destruct (json resp); [|intros _; eexists; reflexivity].
    intros [H|H]; [discriminate|]. rewrite H. simpl. eexists; reflexivity.
Qed.

(** An upload never throws, and asks the store once. *)
Lemma upload_or_null_returns (u : string) (w : world) :
  exists res st',
    upload_or_null fetch u w = (Ret res, (st', snd w ++ [file_request u])).
Proof.
  unfold upload_or_null, catch, uploadExternalImage, bindM.
  pose proof (gql_trace (file_request u) w) as T.
  destruct (gql fetch (file_request u) w) as [[res|e] [st' log']];
    simpl in T; subst log'.
  - match goal with |- context [if ?c then _ else _] => destruct c end;
      eexists; eexists; reflexivity.
  - eexists; eexists; reflexivity.
Qed.

(** When the store fails, the upload yields [null]. *)
Lemma upload_or_null_failure (u : string) (w : world) :
  store_fails fetch (fst w) (file_request u) ->
  fst (upload_or_null fetch u w) = Ret None.
Proof.
  intros H. apply gql_fails with (w := w) in H as [e He].
  unfold upload_or_null, catch, uploadExternalImage, bindM.
  destruct (gql fetch (file_request u) w) as [[res|e'] w'];
    simpl in He; [discriminate | reflexivity].
Qed.

Lemma upload_each_trace (urls : list string) :
  forall (fileIds : list value) (w : world),
  exists more st',
    upload_each fetch urls fileIds w
    = (Ret (fileIds ++ more),
       (st', snd w ++ map file_request (filter is_http_url urls)))
    /\ List.length more <= List.length (filter is_http_url urls).
Proof.
  induction urls as [|u rest IH]; intros fileIds w.
  - exists [], (fst w). simpl. rewrite !app_nil_r. destruct w.
    split; [reflexivity | lia].
  - cbn [upload_each filter]. destruct (is_http_url u) eqn:Hu; cbn [negb].
    + unfold bindM at 1.
      destruct (upload_or_null_returns u w) as (res & st1 & ->).
      destruct (truthy (uploaded_id res)).
      * destruct (IH (fileIds ++ [uploaded_id res])
                     (st1, snd w ++ [file_request u]))
          as (more & st' & -> & Hlen).
        exists (uploaded_id res :: more), st'. cbn [snd map].
        rewrite <- !app_assoc. split; [reflexivity | simpl; lia].
      * destruct (IH fileIds (st1, snd w ++ [file_request u]))
          as (more & st' & -> & Hlen).
        exists more, st'. cbn [snd map].
        rewrite <- !app_assoc. split; [reflexivity | simpl; lia].
    + destruct (IH fileIds w) as (more & st' & -> & Hlen).
      exists more, st'. split; [reflexivity | lia].
Qed.

Lemma upload_primary_trace (r : NormalizedRecord)
    (fields : list MetaobjectFieldInput) (w : world) :
  exists image st',
    upload_primary fetch r fields w
    = (Ret (fields ++ image), (st', snd w ++ primary_requests r))
    /\ (image = [] \/ exists id, image = [image_field id]).
Proof.
  unfold upload_primary, primary_requests.
  destruct (negb (is_empty (imageUrl r)) && is_http_url (imageUrl r)).
  - unfold bindM.
    destruct (upload_or_null_returns (imageUrl r) w) as (res & st1 & ->).
    destruct (truthy (uploaded_id res)).
    + exists [image_field (uploaded_id res)], st1.
      split; [reflexivity|]. right. now eexists.
    + exists [], st1. rewrite app_nil_r. split; [reflexivity | now left].
  - exists [], (fst w). rewrite !app_nil_r. destruct w.
    split; [reflexivity | now left].
Qed.

Lemma firstn_filter_length {A : Type} (f : A -> bool) (n : nat) (l : list A) :
  List.length (filter f (firstn n l)) <= n.
Proof.
  transitivity (List.length (firstn n l)).
  - apply filter_length_le.
  - apply firstn_le_length.
Qed.

Lemma upload_gallery_trace (r : NormalizedRecord)
    (fields : list MetaobjectFieldInput) (w : world) :
  exists gallery st',
    upload_gallery fetch r fields w
    = (Ret (fields ++ gallery),
       (st', snd w ++ map file_request
                        (filter is_http_url (firstn 12 (galleryUrls r)))))
    /\ (gallery = [] \/
        exists ids, gallery = [gallery_field ids] /\
                    0 < List.length ids <= 12).
Proof.
  unfold upload_gallery.
  destruct (galleryUrls r) as [|u rest] eqn:E.
  - exists [], (fst w). simpl. rewrite !app_nil_r. destruct w.
    split; [reflexivity | now left].
  - rewrite <- E. unfold bindM.
    destruct (upload_each_trace (firstn 12 (galleryUrls r)) [] w)
      as (more & st' & -> & Hlen).
    pose proof (firstn_filter_length is_http_url 12 (galleryUrls r)) as Hcap.
    cbn [app]. destruct more as [|i more'].
    + exists [], st'. rewrite app_nil_r. split; [reflexivity | now left].
    + exists [gallery_field (i :: more')], st'. split; [reflexivity|].
      right. eexists. split; [reflexivity|]. simpl in *. lia.
Qed.

(** The requests of one upsert: the upload of the primary image when it is
    valid, the uploads of the valid URLs among the first twelve of the
    gallery, then the upsert itself, whatever the store answered. *)
Lemma upsert_trace (r : NormalizedRecord) (w : world) :
  exists out st' image gallery,
    upsert fetch r w
    = (out,
       (st',
        snd w ++ primary_requests r
        ++ map file_request (filter is_http_url (firstn 12 (galleryUrls r)))
        ++ [UPSERT (externalId r) (name r)
              (base_fields r ++ image ++ gallery) (publishStatus r)]))
    /\ (image = [] \/ exists id, image = [image_field id])
    /\ (gallery = [] \/
        exists ids, gallery = [gallery_field ids] /\
                    0 < List.length ids <= 12).
Proof.
  unfold upsert. unfold bindM at 1.
  destruct (upload_primary_trace r (base_fields r) w)
    as (image & st1 & -> & Himage).
  unfold bindM at 1.
  destruct (upload_gallery_trace r (base_fields r ++ image)
              (st1, snd w ++ primary_requests r))
    as (gallery & st2 & -> & Hgallery).
  cbn [snd]. unfold bindM.
  match goal with
  | |- context [gql fetch ?q ?w0] =>
      pose proof (gql_trace q w0) as T;
      destruct (gql fetch q w0) as [[res|e] [st3 log3]]
  end; cbn [snd] in T; subst log3.
  - match goal with |- context [if ?c then _ else _] => destruct c end;
      eexists; exists st3, image, gallery;
      rewrite <- !app_assoc; repeat split; auto.
  - eexists; exists st3, image, gallery.
    rewrite <- !app_assoc; repeat split; auto.
Qed.

(** When the store fails on every upload, no reference is collected. *)
Lemma upload_each_all_fail (urls : list string) :
  (forall st u, store_fails fetch st (file_request u)) ->
  forall fileIds w, fst (upload_each fetch urls fileIds w) = Ret fileIds.
Proof.
  intros Hfail. induction urls as [|u rest IH]; intros fileIds w;
    [reflexivity|].
  cbn [upload_each]. destruct (is_http_url u); cbn [negb]; [|apply IH].
  unfold bindM.
  pose proof (upload_or_null_failure u w (Hfail (fst w) u)) as F.
  destruct (upload_or_null_returns u w) as (res & st1 & E).
  rewrite E in F |- *. cbn [fst] in F. injection F as ->.
  cbn [uploaded_id truthy]. apply IH.
Qed.

(** When the store fails on every upload, the upsert is sent with the base
    fields alone. *)
Lemma upsert_all_fail (r : NormalizedRecord) (w : world) :
  (forall st u, store_fails fetch st (file_request u)) ->
  exists out st' uploads,
    upsert fetch r w
    = (out,
       (st',
        snd w ++ uploads
        ++ [UPSERT (externalId r) (name r) (base_fields r)
              (publishStatus r)])).
Proof.
  intros Hfail.
  assert (Hnil : forall (l m : list MetaobjectFieldInput),
             Ret (l ++ m) = Ret l -> m = []).
  { intros l m [= H]. apply (app_inv_head l). now rewrite app_nil_r. }
  assert (Hi : fst (upload_primary fetch r (base_fields r) w)
               = Ret (base_fields r)).
  { unfold upload_primary.
    destruct (negb (is_empty (imageUrl r)) && is_http_url (imageUrl r));
      [|reflexivity].
    unfold bindM.
    pose proof (upload_or_null_failure (imageUrl r) w
                  (Hfail (fst w) (imageUrl r))) as F.
    destruct (upload_or_null_returns (imageUrl r) w) as (res & st1 & E1).
    rewrite E1 in F |- *. cbn [fst] in F. injection F as ->. reflexivity. }
  assert (Hg : forall fields w0,
             fst (upload_gallery fetch r fields w0) = Ret fields).
  { intros fields w0. unfold upload_gallery.
    destruct (galleryUrls r) as [|u rest] eqn:Eg; [reflexivity|].
    unfold bindM.
    pose proof (upload_each_all_fail (firstn 12 (u :: rest)) Hfail [] w0)
      as F.
    destruct (upload_each fetch (firstn 12 (u :: rest)) [] w0)
      as [[ids|e] w1]; cbn [fst] in F; [|discriminate].
    injection F as ->. reflexivity. }
  unfold upsert. unfold bindM at 1.
  destruct (upload_primary_trace r (base_fields r) w)
    as (image & st1 & E1 & _).
  rewrite E1 in Hi |- *. cbn [fst] in Hi. apply Hnil in Hi. subst image.
  rewrite app_nil_r. unfold bindM at 1.
  destruct (upload_gallery_trace r (base_fields r)
              (st1, snd w ++ primary_requests r))
    as (gallery & st2 & E2 & _).
  specialize (Hg (base_fields r) (st1, snd w ++ primary_requests r)).
  rewrite E2 in Hg |- *. cbn [fst] in Hg. apply Hnil in Hg. subst gallery.
  rewrite app_nil_r. cbn [snd]. unfold bindM.
  match goal with
  | |- context [gql fetch ?q ?w0] =>
      pose proof (gql_trace q w0) as T;
      destruct (gql fetch q w0) as [[res|e] [st3 log3]]
  end; cbn [snd] in T; subst log3.
  - match goal with |- context [if ?c then _ else _] => destruct c end;
      eexists; exists st3;
      exists (primary_requests r
              ++ map file_request
                   (filter is_http_url (firstn 12 (galleryUrls r))));
      rewrite <- !app_assoc; reflexivity.
  - eexists; exists st3;
      exists (primary_requests r
              ++ map file_request
                   (filter is_http_url (firstn 12 (galleryUrls r))));
      rewrite <- !app_assoc; reflexivity.
Qed.

End Uploads.

(** ** Gallery cap and asset failures *)

Lemma filter_all {A : Type} (f : A -> bool) (l : list A) :
  (forall x, In x l -> f x = true) -> filter f l = l.
Proof.
  induction l as [|x l IH]; intros H; simpl; [reflexivity|].
  rewrite (H x (or_introl eq_refl)). f_equal. apply IH.
  intros y Hy. apply H. now right.
Qed.


Lemma In_firstn {A : Type} (n : nat) (l : list A) (x : A) :
  In x (firstn n l) -> In x l.
Proof.
  intros H. rewrite <- (firstn_skipn n l). apply in_or_app. now left.
Qed.

(** The gallery of a normalized record holds only valid URLs, so the
    loop of lines 174-178 skips none of its first twelve. *)
Lemma normalized_gallery_valid (payload : value)
    (r : Cognito.NormalizedRecord) :
  Cognito.normalize payload = Ret (Some r) ->
  filter is_http_url (firstn 12 (Cognito.galleryUrls r))
  = firstn 12 (Cognito.galleryUrls r).
Proof.
  intros Hr. apply filter_all. intros u Hu.
  apply In_firstn in Hu.
  destruct (normalize_fields _ _ Hr)
    as (_ & _ & _ & _ & _ & _ & _ & _ & _ & _ & _ & _ & Hg & _).
  rewrite Hg in Hu. now apply gallery_of_valid in Hu.
Qed.

(** C5. Whatever the store answers, the uploads requested for the gallery
    of a normalized record are those of its first twelve URLs, in source
    order and nothing else: at most twelve, and exactly twelve when the
    gallery holds twenty.  The gallery field, when present, holds at most
    twelve asset references. *)
Theorem gallery_cap {Store : Type}
    (fetch : Store -> request -> fetch_result * Store)
    (payload : value) (r : Cognito.NormalizedRecord) (w : world) :
  Cognito.normalize payload = Ret (Some r) ->
  exists out st' image gallery,
    Cognito.upsert fetch r w
    = (out,
       (st',
        snd w ++ primary_requests r
        ++ map Cognito.file_request (firstn 12 (Cognito.galleryUrls r))
        ++ [UPSERT (Cognito.externalId r) (Cognito.name r)
              (Cognito.base_fields r ++ image ++ gallery)
              (Cognito.publishStatus r)]))
    /\ List.length (firstn 12 (Cognito.galleryUrls r)) <= 12
    /\ (List.length (Cognito.galleryUrls r) = 20 ->
        List.length (firstn 12 (Cognito.galleryUrls r)) = 12)
    /\ (image = [] \/ exists id, image = [image_field id])
    /\ (gallery = [] \/
        exists ids, gallery = [gallery_field ids] /\
                    0 < List.length ids <= 12).
Proof.
  intros Hr.
  destruct (upsert_trace fetch r w)
    as (out & st' & image & gallery & E & Hi & Hg).
  rewrite (normalized_gallery_valid _ _ Hr) in E.
  exists out, st', image, gallery.
  split; [exact E|]. split; [apply firstn_le_length|].
  split; [|split; assumption].
  intros H20. rewrite length_firstn. lia.
Qed.

Lemma gallery_cap_witness :
  exists out st' image gallery,
    Cognito.upsert Examples.unreachable_store Examples.twenty (tt, [])
    = (out,
       (st',
        snd (tt, @nil request) ++ primary_requests Examples.twenty
        ++ map Cognito.file_request (firstn 12 Examples.twenty_urls)
        ++ [UPSERT "42" "Unnamed"
              (Cognito.base_fields Examples.twenty ++ image ++ gallery)
              ACTIVE]))
    /\ List.length (firstn 12 Examples.twenty_urls) <= 12
    /\ (List.length Examples.twenty_urls = 20 ->
        List.length (firstn 12 Examples.twenty_urls) = 12)
    /\ (image = [] \/ exists id, image = [image_field id])
    /\ (gallery = [] \/
        exists ids, gallery = [gallery_field ids] /\
                    0 < List.length ids <= 12).
Proof.
  apply (gallery_cap Examples.unreachable_store Examples.twenty_payload
           Examples.twenty (tt, [])).
  vm_compute. reflexivity.
Defined.

(** C7. An upload is requested only for a URL with the http or https
    prefix.  The upload never throws: it returns [null] when the transport
    rejects, the body is not JSON or the status is not 2xx, and the field
    is then left out.  Whatever happened to the uploads, the upsert is sent
    with every base field of the record; when every upload fails it is
    sent with the base fields alone. *)
Theorem asset_failures_degrade {Store : Type}
    (fetch : Store -> request -> fetch_result * Store) :
  (forall u w, exists res st',
      Cognito.upload_or_null fetch u w
      = (Ret res, (st', snd w ++ [Cognito.file_request u])))
  /\ (forall u w,
        store_fails fetch (fst w) (Cognito.file_request u) ->
        fst (Cognito.upload_or_null fetch u w) = Ret None)
  /\ (forall r w, exists out st' uploads more,
        Cognito.upsert fetch r w
        = (out,
           (st',
            snd w ++ uploads
            ++ [UPSERT (Cognito.externalId r) (Cognito.name r)
                  (Cognito.base_fields r ++ more)
                  (Cognito.publishStatus r)]))
        /\ Forall http_upload uploads)
  /\ ((forall st u, store_fails fetch st (Cognito.file_request u)) ->
      forall r w, exists out st' uploads,
        Cognito.upsert fetch r w
        = (out,
           (st',
            snd w ++ uploads
            ++ [UPSERT (Cognito.externalId r) (Cognito.name r)
                  (Cognito.base_fields r) (Cognito.publishStatus r)]))).
Proof.
  split; [apply upload_or_null_returns|].
  split; [apply upload_or_null_failure|].
  split; [|intros Hfail r w; now apply upsert_all_fail].
  intros r w.
  destruct (upsert_trace fetch r w)
    as (out & st' & image & gallery & E & _ & _).
  exists out, st',
    (primary_requests r
     ++ map Cognito.file_request
          (filter is_http_url (firstn 12 (Cognito.galleryUrls r)))),
    (image ++ gallery).
  rewrite <- app_assoc. split; [exact E|].
  apply Forall_app. split.
  - unfold primary_requests.
    destruct (negb (is_empty (Cognito.imageUrl r))
              && is_http_url (Cognito.imageUrl r)) eqn:Hc;
      [|constructor].
    apply andb_true_iff in Hc as [_ Hc].
    constructor; [|constructor]. now exists (Cognito.imageUrl r).
  - apply Forall_forall. intros q Hq.
    apply in_map_iff in Hq as (u & <- & Hu).
    apply filter_In in Hu as [_ Hu]. now exists u.
Qed.

Lemma asset_failures_degrade_witness :
  fst (Cognito.upload_or_null Examples.unreachable_store
         "https://cdn.example/a.jpg" (tt, []))
  = Ret None.
Proof.
  destruct (asset_failures_degrade Examples.unreachable_store)
    as (_ & H & _).
  apply H. exact I.
Defined.

(** ** The store capability *)

(** Counterexample to C2 as stated: a 2xx answer that carries a non-empty
    [errors] array is returned by [gql] like any other, and the handler
    reads its [data] and replies 200. *)
Lemma errors_with_data_accepted :
  ok {| status := 200; json := Some Examples.errors_and_data |} = true
  /\ getopt (getopt Examples.errors_and_data "errors") "length" = JNum 1
  /\ gql Examples.partial_store (GET_DEFINITION "animal") (tt, [])
     = (Ret Examples.errors_and_data, (tt, [GET_DEFINITION "animal"]))
  /\ fst (Cognito.handler Examples.partial_store "s3cret"
            Examples.rex_request (tt, []))
     = Ret {| Cognito.code := 200;
              Cognito.sent :=
                Cognito.Upserted (JStr "gid://shopify/Metaobject/1") "42"
                  ACTIVE |}.
Proof. repeat split. Qed.

(** C2, amended.  The [gql] helper of the TypeScript handlers treats as a
    failure a rejected transport, a body that is not JSON and every answer
    whose status is not 2xx: it throws.  A 2xx answer is returned to the
    caller unchanged, whether or not it carries an [errors] array, so the
    caller reads its [data].  The [gql] helper of the JavaScript handlers
    returns the parsed body whatever the status. *)
Theorem gql_failure_policy {Store : Type}
    (fetch : Store -> request -> fetch_result * Store)
    (q : request) (st st' : Store) (log : list request) :
  (fetch st q = (Rejected, st') ->
   gql fetch q (st, log) = (Throw FetchRejected, (st', log ++ [q])))
  /\ (forall resp,
        fetch st q = (Resolved resp, st') ->
        (json resp = None ->
         gql fetch q (st, log) = (Throw BodyNotJson, (st', log ++ [q])))
        /\ (ok resp = false ->
            exists e, gql fetch q (st, log) = (Throw e, (st', log ++ [q])))
        /\ (forall j, json resp = Some j ->
              (ok resp = true ->
               gql fetch q (st, log) = (Ret j, (st', log ++ [q])))
              /\ gql_js fetch q (st, log) = (Ret j, (st', log ++ [q])))).
Proof.
  split.
  - intros E. unfold gql. rewrite E. reflexivity.
  - intros resp E. unfold gql, gql_js. rewrite E. split; [|split].
    + intros ->. reflexivity.
    + intros Hok. rewrite Hok. cbn [negb].
      destruct (json resp); eexists; reflexivity.
    + intros j ->. split; [|reflexivity].
      intros ->. reflexivity.
Qed.

Lemma gql_failure_policy_witness :
  gql Examples.partial_store (UPSERT "42" "Rex" [] ACTIVE) (tt, [])
  = (Ret Examples.errors_and_data, (tt, [] ++ [UPSERT "42" "Rex" [] ACTIVE])).
Proof.
  apply (gql_failure_policy Examples.partial_store
           (UPSERT "42" "Rex" [] ACTIVE) tt tt [])
    with (resp := {| status := 200; json := Some Examples.errors_and_data |});
    reflexivity.
Defined.

(** ** Schema reconciliation *)

Section Reconciliation.

Import Setup.

(** The fields submitted are catalog fields whose key the definition does
    not have yet. *)
Lemma toCreate_sound (existingKeys : list value)
    (f : FieldDefinitionCreateInput) :
  In f (toCreate existingKeys) ->
  has existingKeys (fc_key f) = false /\
  exists c, In c FIELDS /\ f = to_input c.
Proof.
  unfold toCreate. intros H.
  apply in_map_iff in H as (c & <- & Hc).
  apply filter_In in Hc as [Hin Hk]. apply negb_true_iff in Hk.
  split; [exact Hk | now exists c].
Qed.

(** Every catalog field whose key is missing is submitted. *)
Lemma toCreate_complete (existingKeys : list value) (c : FieldDefinition) :
  In c FIELDS -> has existingKeys (fd_key c) = false ->
  In (to_input c) (toCreate existingKeys).
Proof.
  intros Hin Hk. unfold toCreate. apply in_map. apply filter_In.
  split; [exact Hin | now apply negb_true_iff].
Qed.

Lemma has_app (ks ks' : list value) (k : string) :
  has (ks ++ ks') k = has ks k || has ks' k.
Proof. unfold has. apply existsb_app. Qed.





Arguments toCreate : simpl never.
Arguments field_keys : simpl never.





End Reconciliation.


(** * Further properties of the code *)

(** ** Gallery parsing and the description *)

Section GalleryParsing.

Import Cognito.

Lemma split_comma_nonempty (s : string) : split_comma s <> [].
Proof.
  induction s as [|c r IH]; simpl; [discriminate|].
  destruct (Ascii.eqb c comma); [discriminate|].
  destruct (split_comma r); discriminate.
Qed.

Lemma split_comma_piece (p : string) :
  includes_comma p = false -> split_comma p = [p].
Proof.
  induction p as [|c r IH]; simpl; [reflexivity|].
  intros H. apply orb_false_iff in H as [Hc Hr].
  rewrite Hc, (IH Hr). reflexivity.
Qed.

Lemma split_comma_append (p s : string) :
  includes_comma p = false ->
  split_comma (p ++ String comma s) = p :: split_comma s.
Proof.
  induction p as [|c r IH]; simpl; [reflexivity|].
  intros H. apply orb_false_iff in H as [Hc Hr].
  rewrite Hc, (IH Hr). reflexivity.
Qed.

Lemma includes_comma_append (p s : string) :
  includes_comma (p ++ String comma s) = true.
Proof.
  induction p as [|c r IH]; simpl.
  - reflexivity.
  - rewrite IH. apply orb_true_r.
Qed.

(** Splitting what was joined gives the pieces back. *)
Lemma split_join_comma (pieces : list string) :
  pieces <> [] ->
  Forall (fun p => includes_comma p = false) pieces ->
  split_comma (join_comma pieces) = pieces.
Proof.
  induction pieces as [|p rest IH]; intros Hne Hall; [congruence|].
  inversion Hall as [|? ? Hp Hrest]; subst.
  destruct rest as [|q rest'].
  - simpl. now apply split_comma_piece.
  - cbn [join_comma]. rewrite split_comma_append by exact Hp.
    f_equal. apply IH; [discriminate | exact Hrest].
Qed.

(** Joining what was split gives the text back. *)
Lemma join_split_comma (s : string) : join_comma (split_comma s) = s.
Proof.
  induction s as [|c r IH]; [reflexivity|].
  simpl. destruct (Ascii.eqb_spec c comma) as [->|Hc].
  - pose proof (split_comma_nonempty r) as Hne.
    destruct (split_comma r) as [|h t] eqn:E; [congruence|].
    cbn [join_comma]. cbn [join_comma] in IH. simpl. now rewrite IH.
  - pose proof (split_comma_nonempty r) as Hne.
    destruct (split_comma r) as [|h t] eqn:E; [congruence|].
    destruct t as [|h' t'].
    + simpl in *. now rewrite IH.
    + cbn [join_comma] in *. simpl. now rewrite IH.
Qed.

Lemma join_comma_includes (p q : string) (rest : list string) :
  includes_comma (join_comma (p :: q :: rest)) = true.
Proof. cbn [join_comma]. apply includes_comma_append. Qed.

Lemma http_strings_strings (urls : list string) :
  http_strings (map JStr urls) = filter is_http_url urls.
Proof.
  induction urls as [|u rest IH]; simpl; [reflexivity|].
  rewrite IH. reflexivity.
Qed.

(** X1. A gallery written as two or more comma-free pieces joined by commas
    is read back as the pieces, trimmed, that have the http or https
    prefix, in order; a gallery given as an array of strings is read back
    as those of its strings that have the prefix.  Hence a list of two or
    more valid, trimmed, comma-free URLs survives either encoding, and an
    array of valid URLs of any length survives the array encoding. *)
Theorem gallery_round_trip :
  (forall pieces,
      2 <= List.length pieces ->
      Forall (fun p => includes_comma p = false) pieces ->
      gallery_of (JStr (join_comma pieces))
      = filter is_http_url (map trim pieces))
  /\ (forall urls,
        gallery_of (JArr (map JStr urls)) = filter is_http_url urls)
  /\ (forall urls,
        2 <= List.length urls ->
        Forall (fun u => includes_comma u = false) urls ->
        Forall (fun u => trim u = u) urls ->
        Forall (fun u => is_http_url u = true) urls ->
        gallery_of (JStr (join_comma urls)) = urls
        /\ gallery_of (JArr (map JStr urls)) = urls).
Proof.
  assert (H1 : forall pieces,
             2 <= List.length pieces ->
             Forall (fun p => includes_comma p = false) pieces ->
             gallery_of (JStr (join_comma pieces))
             = filter is_http_url (map trim pieces)).
  { intros pieces Hlen Hall.
    destruct pieces as [|p [|q rest]]; simpl in Hlen; try lia.
    cbn [gallery_of]. rewrite join_comma_includes.
    rewrite split_join_comma; [reflexivity | discriminate | exact Hall]. }
  split; [exact H1|]. split; [intros urls; apply http_strings_strings|].
  intros urls Hlen Hc Ht Hv.
  assert (Hf : filter is_http_url urls = urls).
  { apply filter_all. now apply Forall_forall. }
  split.
  - rewrite (H1 urls Hlen Hc).
    replace (map trim urls) with urls; [exact Hf|].
    clear -Ht. induction Ht as [|u l Hu _ IH]; [reflexivity|].
    simpl. now rewrite Hu, <- IH.
  - cbn [gallery_of]. now rewrite http_strings_strings.
Qed.

Lemma gallery_round_trip_witness :
  gallery_of (JStr (join_comma ["https://a.example/1"; "http://b.example/2"]))
  = ["https://a.example/1"; "http://b.example/2"]
  /\ gallery_of (JArr (map JStr ["https://a.example/1"; "http://b.example/2"]))
     = ["https://a.example/1"; "http://b.example/2"].
Proof.
  destruct gallery_round_trip as (_ & _ & H).
  apply H; [simpl; lia | | | ]; repeat constructor.
Defined.

Lemma has_newline_append (s t : string) :
  has_newline (s ++ t) = has_newline s || has_newline t.
Proof.
  induction s as [|c r IH]; simpl; [reflexivity|].
  rewrite IH. apply orb_assoc.
Qed.

Lemma replace_newlines_clean (s : string) :
  has_newline (replace_newlines s) = false.
Proof.
  induction s as [|c r IH]; [reflexivity|].
  cbn [replace_newlines].
  destruct (Ascii.eqb c newline) eqn:Hc.
  - destruct r as [|c' r']; [reflexivity|].
    destruct (Ascii.eqb c' newline); [exact IH|].
    rewrite has_newline_append, IH. reflexivity.
  - cbn [has_newline]. now rewrite Hc, IH.
Qed.

Lemma replace_newlines_fixed (s : string) :
  has_newline s = false -> replace_newlines s = s.
Proof.
  induction s as [|c r IH]; [reflexivity|].
  cbn [has_newline replace_newlines]. intros H.
  apply orb_false_iff in H as [Hc Hr]. now rewrite Hc, (IH Hr).
Qed.

Lemma replace_newlines_prefix (a b : string) :
  has_newline a = false ->
  replace_newlines (a ++ b) = (a ++ replace_newlines b)%string.
Proof.
  induction a as [|c r IH]; [reflexivity|].
  cbn [has_newline]. intros H. apply orb_false_iff in H as [Hc Hr].
  cbn [append replace_newlines]. now rewrite Hc, (IH Hr).
Qed.

Lemma replace_newlines_twice (x : string) :
  replace_newlines (String newline (String newline x))
  = replace_newlines (String newline x).
Proof. reflexivity. Qed.

Lemma replace_newlines_once (b : string) :
  starts_with_newline b = false ->
  replace_newlines (String newline b)
  = ("</p><p>" ++ replace_newlines b)%string.
Proof.
  destruct b as [|c b']; [reflexivity|].
  cbn [starts_with_newline]. intros Hb.
  change (replace_newlines (String newline (String c b')))
    with (if Ascii.eqb c newline
          then replace_newlines (String c b')
          else ("</p><p>" ++ replace_newlines (String c b'))%string).
  now rewrite Hb.
Qed.

Lemma replace_newlines_run (n : nat) (b : string) :
  starts_with_newline b = false ->
  replace_newlines (newlines (S n) ++ b)
  = ("</p><p>" ++ replace_newlines b)%string.
Proof.
  intros Hb. induction n as [|n IH].
  - cbn [newlines append]. now apply replace_newlines_once.
  - change (newlines (S (S n)) ++ b)%string
      with (String newline (String newline (newlines n ++ b))).
    rewrite replace_newlines_twice. exact IH.
Qed.

Lemma has_newline_start (s : string) :
  has_newline s = false -> starts_with_newline s = false.
Proof.
  destruct s as [|c r]; [reflexivity|]. cbn. intros H.
  now apply orb_false_iff in H as [Hc _].
Qed.

Lemma with_runs_start (s : string) (more : list (nat * string)) :
  maximal_runs s more = true ->
  is_empty s = false \/ more = [] ->
  starts_with_newline (with_runs s more) = false.
Proof.
  intros Hm Hs.
  assert (Hn : has_newline s = false).
  { destruct more as [|[n t] more']; cbn [maximal_runs] in Hm;
      apply andb_true_iff in Hm as [Hm _]; now apply negb_true_iff in Hm. }
  destruct more as [|[n t] more'].
  - cbn [with_runs]. now apply has_newline_start.
  - destruct Hs as [Hs|Hs]; [|discriminate].
    destruct s as [|c r]; [discriminate|].
    cbn [with_runs append starts_with_newline].
    cbn [has_newline] in Hn. now apply orb_false_iff in Hn as [Hc _].
Qed.

(** Every maximal run of line feeds, whatever its length, becomes one
    paragraph break, and the segments between the runs are kept. *)
Lemma replace_newlines_runs (rest : list (nat * string)) :
  forall first,
    maximal_runs first rest = true ->
    replace_newlines (with_runs first rest) = with_breaks first rest.
Proof.
  induction rest as [|[n s] more IH]; intros first Hm.
  - cbn [with_runs with_breaks]. apply replace_newlines_fixed.
    cbn [maximal_runs] in Hm. apply andb_true_iff in Hm as [Hm _].
    now apply negb_true_iff in Hm.
  - cbn [maximal_runs] in Hm. apply andb_true_iff in Hm as [Hf Hm].
    apply andb_true_iff in Hm as [Hs Hm]. apply negb_true_iff in Hf.
    cbn [with_runs with_breaks].
    rewrite (replace_newlines_prefix _ _ Hf).
    rewrite replace_newlines_run.
    + now rewrite (IH s Hm).
    + apply with_runs_start; [exact Hm|].
      apply orb_true_iff in Hs as [Hs|Hs].
      * left. now apply negb_true_iff.
      * right. destruct more; [reflexivity | discriminate].
Qed.

(** X2. The description sent to the store is one run of paragraphs: it
    opens with a paragraph tag, closes with one, and holds no line feed in
    between.  Cut at its maximal runs of line feeds, the normalized
    description is sent with exactly one paragraph break in place of each
    run, whatever the length of the run, and with every segment between
    the runs kept as it is; a description without line feed is wrapped
    unchanged. *)
Theorem description_paragraphs (r : NormalizedRecord)
    (f : MetaobjectFieldInput) :
  In f (base_fields r) ->
  mf_key f = "description" ->
  exists t,
    mf_value f = Text ("<p>" ++ t ++ "</p>")%string
    /\ mf_type f = Some "rich_text_field"
    /\ has_newline t = false
    /\ (has_newline (description r) = false -> t = description r)
    /\ (forall first rest,
          description r = with_runs first rest ->
          maximal_runs first rest = true ->
          t = with_breaks first rest).
Proof.
  intros Hin Hk. unfold base_fields in Hin. cbn [In] in Hin.
  repeat (destruct Hin as [<-|Hin]; [try discriminate Hk|]);
    [|destruct Hin].
  exists (replace_newlines (description r)).
  split; [reflexivity|]. split; [reflexivity|].
  split; [apply replace_newlines_clean|].
  split; [apply replace_newlines_fixed|].
  intros first rest -> Hm. now apply replace_newlines_runs.
Qed.

Lemma description_paragraphs_witness :
  exists t,
    mf_value (typed_field "description"
                (Text "<p>Shy at first.</p><p>Loves long walks.</p><p></p>")
                "rich_text_field")
    = Text ("<p>" ++ t ++ "</p>")%string
    /\ t = with_breaks "Shy at first."
             [(1, "Loves long walks."); (0, EmptyString)].
Proof.
  destruct (description_paragraphs
              (Examples.sample [] Examples.two_paragraphs)
              (typed_field "description"
                 (Text "<p>Shy at first.</p><p>Loves long walks.</p><p></p>")
                 "rich_text_field"))
    as (t & Ht & _ & _ & _ & Hruns).
  - cbn. repeat (try (left; reflexivity); right).
  - reflexivity.
  - exists t. split; [exact Ht|].
    apply Hruns; reflexivity.
Defined.

End GalleryParsing.

(** ** Invariants of a normalized record *)

Section NormalizedInvariants.

Import Cognito.

Lemma lower_char_idempotent (c : ascii) :
  lower_char (lower_char c) = lower_char c.
Proof. destruct c as [[] [] [] [] [] [] [] []]; reflexivity. Qed.

Lemma toLowerCase_idempotent (s : string) :
  toLowerCase (toLowerCase s) = toLowerCase s.
Proof.
  induction s as [|c r IH]; simpl; [reflexivity|].
  now rewrite lower_char_idempotent, IH.
Qed.

Lemma lower_char_ws (c : ascii) : is_ws (lower_char c) = is_ws c.
Proof. destruct c as [[] [] [] [] [] [] [] []]; reflexivity. Qed.

Lemma toLowerCase_whitespace_only (s : string) :
  whitespace_only (toLowerCase s) = whitespace_only s.
Proof.
  induction s as [|c r IH]; simpl; [reflexivity|].
  now rewrite lower_char_ws, IH.
Qed.

(** The text [pick] leads to is not blank, unless it is the text of the
    fallback. *)
Lemma pick_string_text (payload : value) (keys : list string)
    (fallback : value) (s : string) :
  pick_string payload keys fallback = Ret s ->
  whitespace_only s = false \/ ToString fallback = Ret s.
Proof.
  intros H. apply pick_string_chosen in H.
  destruct (first_populated payload keys) as [v|] eqn:E; cbn in H.
  - left. apply first_populated_Some in E as [Hp _].
    apply populated_inv in Hp as (_ & s' & Hs' & Hw). congruence.
  - now right.
Qed.

Lemma not_blank_nonempty (s : string) :
  whitespace_only s = false -> s <> EmptyString.
Proof. intros H ->. discriminate. Qed.

Lemma trim_not_blank (s : string) :
  whitespace_only s = false -> whitespace_only (trim s) = false.
Proof.
  intros H. rewrite <- trim_whitespace_only, trim_idempotent.
  now rewrite trim_whitespace_only.
Qed.

(** X3. In every normalized record the name is trimmed and not blank, the
    status is in lower case and not blank, the species is not blank, the
    publication state is Active exactly when the status is "available",
    and each free text (breed, age, gender, size, location, adoption fee,
    description, image URL) is either empty or not blank. *)
Theorem normalized_invariants (payload : value) (r : NormalizedRecord) :
  normalize payload = Ret (Some r) ->
  trim (name r) = name r
  /\ whitespace_only (name r) = false
  /\ toLowerCase (statusRaw r) = statusRaw r
  /\ whitespace_only (statusRaw r) = false
  /\ whitespace_only (species r) = false
  /\ (publishStatus r = ACTIVE <-> statusRaw r = "available")
  /\ Forall (fun t => t = EmptyString \/ whitespace_only t = false)
       [breed r; age r; gender r; size r; location r; adoptionFee r;
        description r; imageUrl r].
Proof.
  intros Hr.
  destruct (normalize_fields _ _ Hr)
    as (_ & (s2 & H2 & E2) & (s3 & H3 & E3) & H4 & H5 & H6
        & H7 & H8 & H9 & H10 & H11 & H12 & _ & _ & _ & _ & _ & _ & _ & Hpub).
  assert (Hfree : forall keys t,
             pick_string payload keys (JStr EmptyString) = Ret t ->
             t = EmptyString \/ whitespace_only t = false).
  { intros keys t H. destruct (pick_string_text _ _ _ _ H) as [Hw|Hf];
      [now right | left]. cbn in Hf. now injection Hf. }
  split; [rewrite E2; apply trim_idempotent|].
  split.
  { rewrite E2. apply trim_not_blank.
    destruct (pick_string_text _ _ _ _ H2) as [Hw|Hf]; [exact Hw|].
    cbn in Hf. injection Hf as <-. reflexivity. }
  split; [rewrite E3; apply toLowerCase_idempotent|].
  split.
  { rewrite E3, toLowerCase_whitespace_only.
    destruct (pick_string_text _ _ _ _ H3) as [Hw|Hf]; [exact Hw|].
    cbn in Hf. injection Hf as <-. reflexivity. }
  split.
  { destruct (pick_string_text _ _ _ _ H4) as [Hw|Hf]; [exact Hw|].
    cbn in Hf. injection Hf as <-. reflexivity. }
  split.
  { rewrite Hpub. unfold publish_of.
    destruct (String.eqb_spec (statusRaw r) "available") as [E|E];
      split; intros H; try reflexivity; try assumption; try discriminate.
    contradiction. }
  repeat (apply Forall_cons; [eapply Hfree; eassumption|]).
  apply Forall_nil.
Qed.

Lemma normalized_invariants_witness :
  trim (name Examples.rex) = name Examples.rex
  /\ whitespace_only (name Examples.rex) = false.
Proof.
  destruct (normalized_invariants Examples.rex_payload Examples.rex eq_refl)
    as (H1 & H2 & _).
  split; assumption.
Defined.

Lemma pick_agree (p p' : value) (keys : list string) (fallback : value) :
  (forall k, In k keys -> getopt p k = getopt p' k) ->
  pick p keys fallback = pick p' keys fallback.
Proof.
  induction keys as [|k rest IH]; intros H; [reflexivity|].
  cbn [pick]. rewrite (H k (or_introl eq_refl)).
  rewrite IH by (intros k' Hk'; apply H; now right). reflexivity.
Qed.

Ltac alias_in :=
  let k := fresh "k" in
  let Hk := fresh "Hk" in
  intros k Hk;
  match goal with
  | H : forall k, In k aliases -> _ |- _ =>
      apply H; unfold aliases; rewrite !in_app_iff; tauto
  end.

Lemma normalize_agree (p p' : value) :
  (forall k, In k aliases -> getopt p k = getopt p' k) ->
  normalize p = normalize p'.
Proof.
  intros H. unfold normalize, pick_string, pick_bool, gallery_value.
  cbn [MAP.gallery nth].
  rewrite (pick_agree p p' MAP.externalId) by alias_in.
  rewrite (pick_agree p p' MAP.name) by alias_in.
  rewrite (pick_agree p p' MAP.status) by alias_in.
  rewrite (pick_agree p p' MAP.species) by alias_in.
  rewrite (pick_agree p p' MAP.breed) by alias_in.
  rewrite (pick_agree p p' MAP.age) by alias_in.
  rewrite (pick_agree p p' MAP.gender) by alias_in.
  rewrite (pick_agree p p' MAP.size) by alias_in.
  rewrite (pick_agree p p' MAP.location) by alias_in.
  rewrite (pick_agree p p' MAP.adoptionFee) by alias_in.
  rewrite (pick_agree p p' MAP.description) by alias_in.
  rewrite (pick_agree p p' MAP.imageUrl) by alias_in.
  rewrite (pick_agree p p' MAP.goodWithKids) by alias_in.
  rewrite (pick_agree p p' MAP.goodWithDogs) by alias_in.
  rewrite (pick_agree p p' MAP.goodWithCats) by alias_in.
  rewrite (pick_agree p p' MAP.houseTrained) by alias_in.
  rewrite (pick_agree p p' MAP.spayedNeutered) by alias_in.
  rewrite (pick_agree p p' MAP.vaccinated) by alias_in.
  rewrite (H "Gallery Urls"), (H "Gallery"), (H "image_urls");
    try (unfold aliases; rewrite !in_app_iff; cbn; tauto).
  reflexivity.
Qed.

(** X4. Normalization reads the aliases of the table and nothing else: two
    payloads that agree on every alias are normalized alike, whatever else
    they hold.  In particular a property whose key is no alias can be added
    to a record without changing its normalization. *)
Theorem normalize_reads_aliases_only :
  (forall p p',
      (forall k, In k aliases -> getopt p k = getopt p' k) ->
      normalize p = normalize p')
  /\ (forall props k v,
        ~ In k aliases ->
        normalize (JObj ((k, v) :: props)) = normalize (JObj props)).
Proof.
  split; [exact normalize_agree|].
  intros props k v Hk. apply normalize_agree.
  intros k' Hk'. unfold getopt, prop. cbn [nullish assoc].
  destruct (String.eqb_spec k' k) as [->|_]; [contradiction | reflexivity].
Qed.

Lemma normalize_reads_aliases_only_witness :
  normalize (JObj (("Microchip", JStr "985112") :: [("id", JStr "7")]))
  = normalize (JObj [("id", JStr "7")]).
Proof.
  destruct normalize_reads_aliases_only as [_ H].
  apply H. intros Hk. cbv in Hk.
  repeat (destruct Hk as [Hk|Hk]; [discriminate Hk|]). exact Hk.
Defined.

End NormalizedInvariants.

(** ** Conversions that throw *)

Section Throwing.

Import Cognito.

Lemma join_from_throws (item : value -> outcome string) (l : list value) :
  Forall (fun x => forall e, item x = Throw e -> e = TypeError) l ->
  forall acc e, join_from item acc l = Throw e -> e = TypeError.
Proof.
  induction 1 as [|x l Hx _ IH]; intros acc e; simpl; [discriminate|].
  destruct (item x) as [t|e'] eqn:E; cbn [bind].
  - apply IH.
  - intros [= <-]. now apply Hx.
Qed.

(** [String(v)] throws nothing but a [TypeError]. *)
Lemma ToString_throws (v : value) (e : exn) :
  ToString v = Throw e -> e = TypeError.
Proof.
  revert e.
  induction v as [| |b|n|s|items IH|props _] using value_induction;
    intros e; simpl; try discriminate.
  - destruct b; discriminate.
  - assert (Hall : Forall (fun x => forall e,
               (if nullish x then Ret EmptyString else ToString x) = Throw e ->
               e = TypeError) items).
    { rewrite Forall_forall in IH |- *. intros x Hx e'.
      destruct (nullish x); [discriminate | now apply IH]. }
    destruct items as [|x rest]; [discriminate|].
    inversion Hall as [|? ? Hx Hrest]; subst.
    destruct (if nullish x then Ret EmptyString else ToString x)
      as [t|e'] eqn:E; cbn [bind].
    + now apply join_from_throws.
    + intros [= <-]. now apply Hx.
  - destruct (has_own props "toString"); [now intros [= <-] | discriminate].
Qed.

(** X5. [pick] throws exactly when, every alias before it being blank, an
    alias holds a value that is neither undefined nor null and has no text;
    what it throws is the [TypeError] of that conversion.  A populated
    alias further down the list does not help. *)
Theorem pick_throws (payload : value) (keys : list string)
    (fallback : value) (e : exn) :
  pick payload keys fallback = Throw e <->
  e = TypeError /\
  exists before k after,
    keys = before ++ k :: after
    /\ (forall k', In k' before -> blank (getopt payload k') = true)
    /\ nullish (getopt payload k) = false
    /\ ToString (getopt payload k) = Throw TypeError.
Proof.
  split.
  - induction keys as [|k rest IH]; cbn [pick]; [discriminate|].
    destruct (nullish (getopt payload k)) eqn:Hn.
    + intros H. destruct (IH H) as (-> & b & k0 & a & -> & Hb & Hk).
      split; [reflexivity|]. exists (k :: b), k0, a.
      split; [reflexivity|]. split; [|exact Hk].
      intros k' [<-|Hk']; [|now apply Hb].
      unfold blank. now rewrite Hn.
    + destruct (ToString (getopt payload k)) as [s|e'] eqn:Hs; cbn [bind].
      * destruct (is_empty (trim s)) eqn:He; [|discriminate].
        intros H. destruct (IH H) as (-> & b & k0 & a & -> & Hb & Hk).
        split; [reflexivity|]. exists (k :: b), k0, a.
        split; [reflexivity|]. split; [|exact Hk].
        intros k' [<-|Hk']; [|now apply Hb].
        unfold blank. rewrite Hn, Hs. cbn [orb].
        now rewrite <- trim_whitespace_only.
      * intros [= <-]. pose proof (ToString_throws _ _ Hs) as ->.
        split; [reflexivity|]. exists [], k, rest.
        split; [reflexivity|]. split; [intros k' []|]. now split.
  - intros (-> & before & k & after & -> & Hb & Hn & Hs).
    induction before as [|b before IH].
    + cbn [app pick]. rewrite Hn, Hs. reflexivity.
    + cbn [app].
      destruct (pick_cons payload b (before ++ k :: after) fallback)
        as [[Hp _]|[[_ E]|(_ & Hbl & _)]].
      * rewrite (blank_not_populated _ (Hb b (or_introl eq_refl))) in Hp.
        discriminate.
      * rewrite E. apply IH. intros k' Hk'. apply Hb. now right.
      * rewrite (Hb b (or_introl eq_refl)) in Hbl. discriminate.
Qed.

Lemma pick_throws_witness :
  pick (JObj [("Entry ID", JObj [("toString", JNum 1)]); ("id", JStr "42")])
       MAP.externalId (JStr EmptyString)
  = Throw TypeError.
Proof.
  apply pick_throws. split; [reflexivity|].
  exists [], "Entry ID", ["entryId"; "Number"; "id"].
  repeat split. intros k' [].
Defined.

End Throwing.

(** ** The ingestion handler *)

Section IngestionHandler.

Import Cognito.

Context {Store : Type}.
Variable fetch : Store -> request -> fetch_result * Store.

(** What [uploadExternalImage] resolves to, when it resolves to an object:
    the first file of the answer, whose [id] is truthy. *)
Lemma upload_or_null_truthy (u : string) (w : world) :
  exists res st',
    upload_or_null fetch u w = (Ret res, (st', snd w ++ [file_request u]))
    /\ (truthy (uploaded_id res) = true \/ res = None).
Proof.
  unfold upload_or_null, catch, uploadExternalImage, bindM.
  pose proof (gql_trace fetch (file_request u) w) as T.
  destruct (gql fetch (file_request u) w) as [[res|e] [st' log']];
    simpl in T; subst log'.
  - match goal with
    | |- context [if negb (truthy ?c) then _ else _] =>
        destruct (truthy c) eqn:Ht
    end; cbn [negb]; eexists; eexists; (split; [reflexivity|]).
    + left. cbn. unfold getopt in Ht.
      match type of Ht with
      | truthy (if nullish ?f then _ else _) = true =>
          destruct (nullish f); [discriminate | exact Ht]
      end.
    + now right.
  - eexists; eexists; split; [reflexivity | now right].
Qed.

Lemma upload_each_full (urls : list string) :
  forall (fileIds : list value) (w : world),
  exists more st',
    upload_each fetch urls fileIds w
    = (Ret (fileIds ++ more),
       (st', snd w ++ map file_request (filter is_http_url urls)))
    /\ List.length more <= List.length (filter is_http_url urls)
    /\ Forall (fun i => truthy i = true) more.
Proof.
  induction urls as [|u rest IH]; intros fileIds w.
  - exists [], (fst w). simpl. rewrite !app_nil_r. destruct w.
    split; [reflexivity|]. split; [lia | constructor].
  - cbn [upload_each filter]. destruct (is_http_url u) eqn:Hu; cbn [negb].
    + unfold bindM at 1.
      destruct (upload_or_null_truthy u w) as (res & st1 & -> & _).
      destruct (truthy (uploaded_id res)) eqn:Ht.
      * destruct (IH (fileIds ++ [uploaded_id res])
                     (st1, snd w ++ [file_request u]))
          as (more & st' & -> & Hlen & Hall).
        exists (uploaded_id res :: more), st'. cbn [snd map].
        rewrite <- !app_assoc. split; [reflexivity|].
        split; [simpl; lia | now constructor].
      * destruct (IH fileIds (st1, snd w ++ [file_request u]))
          as (more & st' & -> & Hlen & Hall).
        exists more, st'. cbn [snd map].
        rewrite <- !app_assoc. split; [reflexivity|].
        split; [simpl; lia | exact Hall].
    + destruct (IH fileIds w) as (more & st' & -> & Hlen & Hall).
      exists more, st'. split; [reflexivity|]. split; [lia | exact Hall].
Qed.

(** The requests and the fields of one upsert, in full. *)
Lemma upsert_request (r : NormalizedRecord) (w : world) :
  exists out st' image gallery,
    upsert fetch r w
    = (out,
       (st',
        snd w
        ++ (primary_requests r
            ++ map file_request
                 (filter is_http_url (firstn 12 (galleryUrls r))))
        ++ [UPSERT (externalId r) (name r)
              (base_fields r ++ image ++ gallery) (publishStatus r)]))
    /\ (image = [] \/
        exists i, image = [image_field i] /\ truthy i = true)
    /\ (gallery = [] \/
        exists ids, gallery = [gallery_field ids] /\
                    0 < List.length ids <= 12 /\
                    Forall (fun i => truthy i = true) ids)
    /\ (forall rep, out = Ret rep ->
        (code rep = 200%Z /\
         exists i, sent rep = Upserted i (externalId r) (publishStatus r))
        \/ (code rep = 400%Z /\
            exists err, sent rep = UserError err /\ truthy err = true)).
Proof.
  unfold upsert. unfold bindM at 1.
  assert (Hprimary : exists image st1,
             upload_primary fetch r (base_fields r) w
             = (Ret (base_fields r ++ image),
                (st1, snd w ++ primary_requests r))
             /\ (image = [] \/
                 exists i, image = [image_field i] /\ truthy i = true)).
  { unfold upload_primary, primary_requests.
    destruct (negb (is_empty (imageUrl r)) && is_http_url (imageUrl r)).
    - unfold bindM.
      destruct (upload_or_null_truthy (imageUrl r) w) as (res & st1 & -> & _).
      destruct (truthy (uploaded_id res)) eqn:Ht.
      + exists [image_field (uploaded_id res)], st1.
        split; [reflexivity|]. right. now eexists.
      + exists [], st1. rewrite app_nil_r. split; [reflexivity | now left].
    - exists [], (fst w). rewrite !app_nil_r. destruct w.
      split; [reflexivity | now left]. }
  destruct Hprimary as (image & st1 & -> & Himage).
  unfold bindM at 1.
  assert (Hgallery : exists gallery st2,
             upload_gallery fetch r (base_fields r ++ image)
               (st1, snd w ++ primary_requests r)
             = (Ret ((base_fields r ++ image) ++ gallery),
                (st2,
                 (snd w ++ primary_requests r)
                 ++ map file_request
                      (filter is_http_url (firstn 12 (galleryUrls r)))))
             /\ (gallery = [] \/
                 exists ids, gallery = [gallery_field ids] /\
                             0 < List.length ids <= 12 /\
                             Forall (fun i => truthy i = true) ids)).
  { unfold upload_gallery.
    destruct (galleryUrls r) as [|u rest] eqn:E.
    - exists [], st1. simpl. rewrite !app_nil_r.
      split; [reflexivity | now left].
    - rewrite <- E. unfold bindM.
      destruct (upload_each_full (firstn 12 (galleryUrls r)) []
                  (st1, snd w ++ primary_requests r))
        as (more & st2 & -> & Hlen & Hall).
      pose proof (firstn_filter_length is_http_url 12 (galleryUrls r))
        as Hcap.
      cbn [app snd]. destruct more as [|i more'].
      + exists [], st2. rewrite app_nil_r. split; [reflexivity | now left].
      + exists [gallery_field (i :: more')], st2. split; [reflexivity|].
        right. eexists. split; [reflexivity|].
        split; [simpl in *; lia | exact Hall]. }
  destruct Hgallery as (gallery & st2 & -> & Hgallery).
  unfold bindM.
  match goal with
  | |- context [gql fetch ?q ?w0] =>
      pose proof (gql_trace fetch q w0) as T;
      destruct (gql fetch q w0) as [[res|e] [st3 log3]]
  end; cbn [snd] in T; subst log3.
  - match goal with
    | |- context [if truthy ?c then _ else _] => destruct (truthy c) eqn:Ht
    end;
      eexists; exists st3, image, gallery;
      rewrite <- !app_assoc;
      (split; [reflexivity|]); (split; [exact Himage|]);
      (split; [exact Hgallery|]); intros rep [= <-]; cbn [code sent].
    + right. split; [reflexivity|]. eexists. split; [reflexivity | exact Ht].
    + left. split; [reflexivity|]. now eexists.
  - eexists; exists st3, image, gallery.
    rewrite <- !app_assoc.
    split; [reflexivity|]. split; [exact Himage|].
    split; [exact Hgallery|]. intros rep [=].
Qed.

End IngestionHandler.

Lemma distinct_NoDup (l : list string) : distinct l = true -> NoDup l.
Proof.
  induction l as [|x rest IH]; intros H; [constructor|].
  cbn [distinct] in H. apply andb_true_iff in H as [Hx Hrest].
  constructor; [|now apply IH].
  intros Hin. apply negb_true_iff in Hx.
  assert (existsb (String.eqb x) rest = true); [|congruence].
  apply existsb_exists. exists x. split; [exact Hin | apply String.eqb_refl].
Qed.

(** X6. Whatever the store answers, every field of the upsert request is
    declared by the catalog of the reconciler, with the declared type when
    the field names one; the keys of the request are pairwise different;
    there are between 17 and 19 fields. *)
Theorem upsert_fields_declared {Store : Type}
    (fetch : Store -> request -> fetch_result * Store)
    (r : Cognito.NormalizedRecord) (w : world) :
  exists out st' uploads fields,
    Cognito.upsert fetch r w
    = (out,
       (st',
        snd w ++ uploads
        ++ [UPSERT (Cognito.externalId r) (Cognito.name r) fields
              (Cognito.publishStatus r)]))
    /\ Forall (fun f => declared f = true) fields
    /\ NoDup (map mf_key fields)
    /\ 17 <= List.length fields <= 19.
Proof.
  destruct (upsert_request fetch r w)
    as (out & st' & image & gallery & E & Hi & Hg & _).
  eexists; eexists; eexists; exists (Cognito.base_fields r ++ image ++ gallery).
  split; [exact E|].
  destruct Hi as [->|(i & -> & _)]; destruct Hg as [->|(ids & -> & _)];
    (split; [repeat (apply Forall_cons; [reflexivity|]); apply Forall_nil|]);
    (split; [apply distinct_NoDup; reflexivity | cbn; lia]).
Qed.

(** X7. Whatever the store answers, a file identifier placed in the upsert
    request is truthy, as the store returned it, and a gallery field never
    holds an empty list: a failed or empty upload leaves no trace in the
    fields. *)
Theorem upsert_file_ids_truthy {Store : Type}
    (fetch : Store -> request -> fetch_result * Store)
    (r : Cognito.NormalizedRecord) (w : world) :
  exists out st' uploads fields,
    Cognito.upsert fetch r w
    = (out,
       (st',
        snd w ++ uploads
        ++ [UPSERT (Cognito.externalId r) (Cognito.name r) fields
              (Cognito.publishStatus r)]))
    /\ Forall (fun f => ids_truthy f = true) fields.
Proof.
  destruct (upsert_request fetch r w)
    as (out & st' & image & gallery & E & Hi & Hg & _).
  eexists; eexists; eexists; exists (Cognito.base_fields r ++ image ++ gallery).
  split; [exact E|].
  apply Forall_app. split;
    [repeat (apply Forall_cons; [reflexivity|]); apply Forall_nil|].
  apply Forall_app. split.
  - destruct Hi as [->|(i & -> & Ht)]; [constructor|].
    constructor; [exact Ht | constructor].
  - destruct Hg as [->|(ids & -> & Hlen & Hall)]; [constructor|].
    constructor; [|constructor].
    unfold ids_truthy. cbn. apply andb_true_iff. split.
    + apply forallb_forall. now apply Forall_forall.
    + destruct ids; [simpl in Hlen; lia | reflexivity].
Qed.

Section IngestionReplies.

Import Cognito.

Context {Store : Type}.
Variable fetch : Store -> request -> fetch_result * Store.
Variable WEBHOOK_SECRET : string.

Lemma catch_world {A : Type} (m : M A) (h : exn -> A) (w : world) :
  snd (catch (Store := Store) m h w) = snd (m w).
Proof. unfold catch. destruct (m w) as [[a|e] w']; reflexivity. Qed.

(** The guards of lines 98-102 pass exactly for a POST that carries the
    secret, the secret being not empty. *)
Lemma guards_pass (req : VercelRequest) :
  method req = "POST" ->
  x_webhook_secret req = JStr WEBHOOK_SECRET ->
  WEBHOOK_SECRET <> EmptyString ->
  forall w,
    handler fetch WEBHOOK_SECRET req w
    = catch
        (match normalize (payload_of (req_body req)) with
         | Throw e => throw e
         | Ret None =>
             ret {| code := 400;
                    sent := Plain "Missing external id (e.g., Entry ID)" |}
         | Ret (Some r) => upsert fetch r
         end)
        (fun e => {| code := 500; sent := ServerError e |}) w.
Proof.
  intros Hm Hs Hne w. unfold handler. rewrite Hm, Hs. cbn.
  rewrite String.eqb_refl.
  destruct WEBHOOK_SECRET; [congruence | reflexivity].
Qed.

(** X8. A call that is not a POST is answered 405, and a POST whose
    [x-webhook-secret] header is not the secret, or any POST when the
    secret is empty, is answered 401; in both cases nothing is sent to the
    store.  A POST that carries a non-empty secret is never answered 401 or
    405. *)
Theorem ingestion_guards (req : VercelRequest) (w : world) :
  (method req <> "POST" ->
   handler fetch WEBHOOK_SECRET req w
   = (Ret {| code := 405; sent := Plain "Method Not Allowed" |}, w))
  /\ (method req = "POST" ->
      x_webhook_secret req <> JStr WEBHOOK_SECRET
      \/ WEBHOOK_SECRET = EmptyString ->
      handler fetch WEBHOOK_SECRET req w
      = (Ret {| code := 401; sent := Plain "Unauthorized" |}, w))
  /\ (method req = "POST" ->
      x_webhook_secret req = JStr WEBHOOK_SECRET ->
      WEBHOOK_SECRET <> EmptyString ->
      forall rep, fst (handler fetch WEBHOOK_SECRET req w) = Ret rep ->
                  code rep <> 401%Z /\ code rep <> 405%Z).
Proof.
  split; [|split].
  - intros Hm. unfold handler, catch.
    destruct (String.eqb_spec (method req) "POST") as [E|_];
      [contradiction | reflexivity].
  - intros Hm Hs. unfold handler, catch. rewrite Hm. cbn.
    assert (Hg : negb (truthy (x_webhook_secret req))
                 || negb (is_string_equal (x_webhook_secret req)
                            WEBHOOK_SECRET) = true).
    { destruct (x_webhook_secret req) as [| |b|n|t|items|props] eqn:Ev;
        cbn; try reflexivity; try apply orb_true_r.
      destruct (String.eqb_spec t WEBHOOK_SECRET) as [->|Hne].
      - destruct Hs as [Hs|Hs]; [congruence|]. rewrite Hs. reflexivity.
      - apply orb_true_r. }
    rewrite Hg. reflexivity.
  - intros Hm Hs Hne rep. rewrite (guards_pass req Hm Hs Hne w).
    unfold catch.
    destruct (normalize (payload_of (req_body req))) as [[r|]|e].
    + destruct (upsert_request fetch r w)
        as (out & st' & image & gallery & E & _ & _ & Hrep).
      rewrite E. destruct out as [rep'|e]; cbn [fst].
      * intros [= <-].
        destruct (Hrep rep' eq_refl) as [[-> _]|[-> _]];
          split; discriminate.
      * intros [= <-]. split; discriminate.
    + intros [= <-]. split; discriminate.
    + intros [= <-]. split; discriminate.
Qed.

(** X9. The handler always answers: what it catches becomes a reply 500.
    Its status is one of 200, 400, 401, 405 and 500, and a reply 200
    carries as handle the externalId of the normalized record and as
    status its publication state. *)
Theorem ingestion_always_replies (req : VercelRequest) (w : world) :
  exists rep,
    fst (handler fetch WEBHOOK_SECRET req w) = Ret rep
    /\ In (code rep) [200; 400; 401; 405; 500]%Z
    /\ (code rep = 200%Z ->
        exists r i,
          normalize (payload_of (req_body req)) = Ret (Some r)
          /\ sent rep = Upserted i (externalId r) (publishStatus r)).
Proof.
  unfold handler, catch.
  destruct (negb (method req =? "POST")%string).
  { eexists. split; [reflexivity|]. split; [cbn; tauto | discriminate]. }
  destruct (negb (truthy (x_webhook_secret req))
            || negb (is_string_equal (x_webhook_secret req) WEBHOOK_SECRET)).
  { eexists. split; [reflexivity|]. split; [cbn; tauto | discriminate]. }
  destruct (normalize (payload_of (req_body req))) as [[r|]|e].
  - destruct (upsert_request fetch r w)
      as (out & st' & image & gallery & E & _ & _ & Hrep).
    rewrite E. destruct out as [rep|e].
    + exists rep. split; [reflexivity|].
      destruct (Hrep rep eq_refl) as [[Hc (i & Hi)]|[Hc _]]; rewrite Hc.
      * split; [cbn; tauto|]. intros _. now exists r, i.
      * split; [cbn; tauto | discriminate].
    + eexists. split; [reflexivity|]. split; [cbn; tauto | discriminate].
  - eexists. split; [reflexivity|]. split; [cbn; tauto | discriminate].
  - eexists. split; [reflexivity|]. split; [cbn; tauto | discriminate].
Qed.

(** X10. One call sends at most fourteen requests: uploads only, one for
    the primary image and at most twelve for the gallery, then a single
    upsert, which is the last request; or nothing at all. *)
Theorem ingestion_request_budget (req : VercelRequest) (w : world) :
  exists requests,
    snd (snd (handler fetch WEBHOOK_SECRET req w)) = snd w ++ requests
    /\ List.length requests <= 14
    /\ (requests = [] \/
        exists uploads q,
          requests = uploads ++ [q]
          /\ is_upsert q = true
          /\ Forall (fun u => is_file_create u = true) uploads).
Proof.
  unfold handler. rewrite catch_world.
  assert (Hnone : exists requests : list request,
             snd w = snd w ++ requests
             /\ List.length requests <= 14
             /\ (requests = [] \/
                 exists uploads q,
                   requests = uploads ++ [q]
                   /\ is_upsert q = true
                   /\ Forall (fun u => is_file_create u = true) uploads)).
  { exists []. rewrite app_nil_r. split; [reflexivity|].
    split; [simpl; lia | now left]. }
  destruct (negb (method req =? "POST")%string); [exact Hnone|].
  destruct (negb (truthy (x_webhook_secret req))
            || negb (is_string_equal (x_webhook_secret req) WEBHOOK_SECRET));
    [exact Hnone|].
  destruct (normalize (payload_of (req_body req))) as [[r|]|e];
    [|exact Hnone|exact Hnone].
  destruct (upsert_request fetch r w)
    as (out & st' & image & gallery & E & _ & _ & _).
  rewrite E. cbn [snd]. eexists. split; [reflexivity|].
  pose proof (firstn_filter_length is_http_url 12 (galleryUrls r)) as Hcap.
  assert (Hp : List.length (primary_requests r) <= 1).
  { unfold primary_requests.
    destruct (negb (is_empty (imageUrl r)) && is_http_url (imageUrl r));
      simpl; lia. }
  split.
  - rewrite !length_app, length_map. cbn [List.length]. lia.
  - right. eexists; eexists. split; [reflexivity|].
    split; [reflexivity|].
    apply Forall_app. split.
    + unfold primary_requests.
      destruct (negb (is_empty (imageUrl r)) && is_http_url (imageUrl r));
        repeat constructor.
    + apply Forall_forall. intros q Hq.
      apply in_map_iff in Hq as (u & <- & _). reflexivity.
Qed.

End IngestionReplies.

Lemma ingestion_guards_witness :
  Cognito.handler Examples.unreachable_store "s3cret"
    {| Cognito.method := "POST";
       Cognito.x_webhook_secret := JStr "guess";
       Cognito.req_body := Examples.rex_payload |} (tt, [])
  = (Ret {| Cognito.code := 401; Cognito.sent := Cognito.Plain "Unauthorized" |},
     (tt, [])).
Proof.
  destruct (ingestion_guards Examples.unreachable_store "s3cret"
              {| Cognito.method := "POST";
                 Cognito.x_webhook_secret := JStr "guess";
                 Cognito.req_body := Examples.rex_payload |} (tt, []))
    as (_ & H & _).
  apply H; [reflexivity|]. left. discriminate.
Defined.

Lemma ingestion_always_replies_witness :
  exists r i,
    Cognito.normalize (Cognito.payload_of (Cognito.req_body Examples.rex_request))
    = Ret (Some r)
    /\ Cognito.Upserted (JStr "gid://shopify/Metaobject/1") "42" ACTIVE
       = Cognito.Upserted i (Cognito.externalId r) (Cognito.publishStatus r).
Proof.
  destruct (ingestion_always_replies Examples.partial_store "s3cret"
              Examples.rex_request (tt, []))
    as (rep & Hrep & _ & H).
  cbv in Hrep. injection Hrep as <-.
  apply H. reflexivity.
Defined.

Section IngestionEdges.

Import Cognito.

Context {Store : Type}.
Variable fetch : Store -> request -> fetch_result * Store.
Variable WEBHOOK_SECRET : string.

(** No identity alias is a property of a scalar or of an array. *)
Lemma identity_absent (b : value) (k : string) :
  not_an_object b = true -> In k MAP.externalId ->
  getopt (payload_of b) k = JUndefined.
Proof.
  intros Hb Hk. cbv [MAP.externalId In] in Hk.
  unfold payload_of.
  destruct b as [| |[]|n|s|items|props]; try discriminate Hb;
    cbn [truthy]; try reflexivity.
  - destruct (negb (n =? 0)%Z); reflexivity.
  - destruct s as [|c s']; cbn [is_empty negb]; [reflexivity|].
    repeat (destruct Hk as [<-|Hk]; [reflexivity|]). destruct Hk.
  - repeat (destruct Hk as [<-|Hk]; [reflexivity|]). destruct Hk.
Qed.

(** X11. A body that is missing, a scalar or an array is treated as an
    empty record: an authorized POST that carries one is answered 400
    "Missing external id" and nothing is sent to the store. *)
Theorem ingestion_rejects_non_objects (req : VercelRequest) (w : world) :
  method req = "POST" ->
  x_webhook_secret req = JStr WEBHOOK_SECRET ->
  WEBHOOK_SECRET <> EmptyString ->
  not_an_object (req_body req) = true ->
  handler fetch WEBHOOK_SECRET req w
  = (Ret {| code := 400;
            sent := Plain "Missing external id (e.g., Entry ID)" |}, w).
Proof.
  intros Hm Hs Hne Hb.
  assert (Hn : normalize (payload_of (req_body req)) = Ret None).
  { apply missing_identity_iff. intros k Hk.
    now rewrite (identity_absent _ _ Hb Hk). }
  destruct (handler_missing_identity fetch WEBHOOK_SECRET req w Hn)
    as [Hw Hr].
  specialize (Hr Hm Hs Hne).
  destruct (handler fetch WEBHOOK_SECRET req w) as [out w'].
  cbn [fst snd] in *. now subst.
Qed.

Lemma pick_throws_TypeError (payload : value) (keys : list string)
    (fallback : value) (e : exn) :
  pick payload keys fallback = Throw e -> e = TypeError.
Proof.
  induction keys as [|k rest IH]; cbn [pick]; [discriminate|].
  destruct (nullish (getopt payload k)); [exact IH|].
  destruct (ToString (getopt payload k)) as [t|e'] eqn:Hs; cbn [bind].
  - destruct (is_empty (trim t)); [exact IH | discriminate].
  - intros [= <-]. now apply ToString_throws in Hs.
Qed.

Lemma pick_string_throws (payload : value) (keys : list string)
    (fallback : value) (e : exn) :
  pick_string payload keys fallback = Throw e -> e = TypeError.
Proof.
  unfold pick_string.
  destruct (pick payload keys fallback) as [v|e'] eqn:E; cbn [bind].
  - apply ToString_throws.
  - intros [= <-]. now apply pick_throws_TypeError in E.
Qed.

Lemma pick_bool_throws (payload : value) (keys : list string) (e : exn) :
  pick_bool payload keys = Throw e -> e = TypeError.
Proof.
  unfold pick_bool.
  destruct (pick payload keys (JBool false)) as [v|e'] eqn:E; cbn [bind].
  - discriminate.
  - intros [= <-]. now apply pick_throws_TypeError in E.
Qed.

(** Normalization throws nothing but the [TypeError] of a conversion. *)
Lemma normalize_throws (payload : value) (e : exn) :
  normalize payload = Throw e -> e = TypeError.
Proof.
  unfold normalize. intros H.
  repeat match type of H with
         | context [pick_string ?p ?k ?f] =>
             let E := fresh "E" in
             destruct (pick_string p k f) eqn:E; cbn [bind] in H;
             [|injection H as <-; now apply pick_string_throws in E]
         | context [pick_bool ?p ?k] =>
             let E := fresh "E" in
             destruct (pick_bool p k) eqn:E; cbn [bind] in H;
             [|injection H as <-; now apply pick_bool_throws in E]
         | context [is_empty ?x] =>
             let E := fresh "E" in
             destruct (is_empty x) eqn:E; [discriminate H|]
         end.
  discriminate.
Qed.

(** X12. When a conversion throws during normalization, an authorized POST
    is answered 500 with that [TypeError], and nothing is sent to the
    store: neither an upload nor the upsert. *)
Theorem ingestion_conversion_error (req : VercelRequest) (w : world)
    (e : exn) :
  method req = "POST" ->
  x_webhook_secret req = JStr WEBHOOK_SECRET ->
  WEBHOOK_SECRET <> EmptyString ->
  normalize (payload_of (req_body req)) = Throw e ->
  e = TypeError
  /\ handler fetch WEBHOOK_SECRET req w
     = (Ret {| code := 500; sent := ServerError TypeError |}, w).
Proof.
  intros Hm Hs Hne Hn. pose proof (normalize_throws _ _ Hn) as ->.
  split; [reflexivity|].
  rewrite (guards_pass fetch WEBHOOK_SECRET req Hm Hs Hne w).
  rewrite Hn. reflexivity.
Qed.

End IngestionEdges.

Lemma ingestion_rejects_non_objects_witness :
  Cognito.handler Examples.unreachable_store "s3cret"
    {| Cognito.method := "POST";
       Cognito.x_webhook_secret := JStr "s3cret";
       Cognito.req_body := JArr [JObj [("id", JStr "42")]] |} (tt, [])
  = (Ret {| Cognito.code := 400;
            Cognito.sent :=
              Cognito.Plain "Missing external id (e.g., Entry ID)" |},
     (tt, [])).
Proof.
  apply ingestion_rejects_non_objects;
    [reflexivity | reflexivity | discriminate | reflexivity].
Defined.

Lemma ingestion_conversion_error_witness :
  TypeError = TypeError
  /\ Cognito.handler Examples.unreachable_store "s3cret"
       {| Cognito.method := "POST";
          Cognito.x_webhook_secret := JStr "s3cret";
          Cognito.req_body :=
            JObj [("id", JStr "42");
                  ("Name", JObj [("toString", JNum 1)])] |} (tt, [])
     = (Ret {| Cognito.code := 500;
               Cognito.sent := Cognito.ServerError TypeError |},
        (tt, [])).
Proof.
  apply ingestion_conversion_error;
    [reflexivity | reflexivity | discriminate | reflexivity].
Defined.

(** ** The reconciler on any store *)

Section ReconcilerFacts.

Import Setup.

Context {Store : Type}.
Variable fetch : Store -> request -> fetch_result * Store.
Variable SETUP_SECRET : string.

(** Every run of the reconciler: the lookup, then at most one of a
    creation of the whole catalog and an update that only creates. *)
Lemma reconcile_cases (w : world) :
  exists out st' more,
    reconcile fetch w
    = (out, (st', snd w ++ GET_DEFINITION "animal" :: more))
    /\ (more = []
        \/ more = [CREATE_DEFINITION full_definition]
        \/ exists i ks, more = [UPDATE_DEFINITION i (toCreate ks) []]
                        /\ toCreate ks <> [])
    /\ (forall rep, out = Ret rep -> settled rep).
Proof.
  unfold reconcile, bindM.
  pose proof (gql_trace fetch (GET_DEFINITION "animal") w) as T.
  destruct (gql fetch (GET_DEFINITION "animal") w)
    as [[defResp|e] [st1 log1]]; cbn [snd] in T; subst log1.
  2:{ eexists; exists st1, []. split; [reflexivity|].
      split; [now left | intros rep [=]]. }
  set (existing := getopt (getopt defResp "data")
                          "metaobjectDefinitionByType").
  destruct (truthy existing); cbn [negb].
  - destruct (field_keys (prop existing "fieldDefinitions")) as [ks|e].
    2:{ eexists; exists st1, []. split; [reflexivity|].
        split; [now left | intros rep [=]]. }
    destruct (toCreate ks) as [|f fs] eqn:E.
    { eexists; exists st1, []. split; [reflexivity|].
      split; [now left|]. intros rep [= <-]. left.
      split; [reflexivity|]. right. now left. }
    match goal with
    | |- context [gql fetch ?q ?w0] =>
        pose proof (gql_trace fetch q w0) as T;
        destruct (gql fetch q w0) as [[res|e] [st2 log2]]
    end; cbn [snd] in T; subst log2.
    + match goal with
      | |- context [if truthy ?c then _ else _] => destruct (truthy c) eqn:Ht
      end;
        eexists; exists st2; eexists;
        rewrite <- app_assoc;
        (split; [reflexivity|]);
        (split; [right; right; exists (prop existing "id"), ks;
                 rewrite E; split; [reflexivity | discriminate]|]);
        intros rep [= <-].
      * right. split; [reflexivity|]. eexists; eexists.
        split; [reflexivity|]. split; [now right | exact Ht].
      * left. split; [reflexivity|]. right. right. now eexists.
    + eexists; exists st2; eexists. rewrite <- app_assoc.
      split; [reflexivity|].
      split; [right; right; exists (prop existing "id"), ks;
              rewrite E; split; [reflexivity | discriminate]|].
      intros rep [=].
  - match goal with
    | |- context [gql fetch ?q ?w0] =>
        pose proof (gql_trace fetch q w0) as T;
        destruct (gql fetch q w0) as [[res|e] [st2 log2]]
    end; cbn [snd] in T; subst log2.
    + match goal with
      | |- context [if truthy ?c then _ else _] => destruct (truthy c) eqn:Ht
      end;
        eexists; exists st2; eexists;
        rewrite <- app_assoc;
        (split; [reflexivity|]);
        (split; [right; now left|]);
        intros rep [= <-].
      * right. split; [reflexivity|]. eexists; eexists.
        split; [reflexivity|]. split; [now left | exact Ht].
      * left. split; [reflexivity|]. left. now eexists.
    + eexists; exists st2; eexists. rewrite <- app_assoc.
      split; [reflexivity|]. split; [right; now left|].
      intros rep [=].
Qed.

Lemma catch_world_setup {A : Type} (m : M A) (h : exn -> A) (w : world) :
  snd (catch (Store := Store) m h w) = snd (m w).
Proof. unfold catch. destruct (m w) as [[a|e] w']; reflexivity. Qed.

Lemma unauthorized_bearer :
  unauthorized SETUP_SECRET (JStr ("Bearer " ++ SETUP_SECRET)) = false.
Proof.
  unfold unauthorized. cbn [truthy append is_empty negb].
  rewrite String.eqb_refl. reflexivity.
Qed.

Lemma unauthorized_other (a : value) :
  a <> JStr ("Bearer " ++ SETUP_SECRET) -> unauthorized SETUP_SECRET a = true.
Proof.
  intros Ha. unfold unauthorized.
  destruct a as [| |[]|n|t|items|props]; cbn [truthy]; try reflexivity.
  - destruct (negb (n =? 0)%Z); reflexivity.
  - destruct t as [|c t']; cbn [is_empty negb]; [reflexivity|].
    destruct (String.eqb_spec (String c t') ("Bearer " ++ SETUP_SECRET))
      as [E|_]; [|reflexivity].
    rewrite E in Ha. contradiction.
Qed.

(** An authorized POST runs the reconciliation under the [catch]. *)
Lemma setup_authorized (req : VercelRequest) (w : world) :
  method req = "POST" ->
  authorization req = JStr ("Bearer " ++ SETUP_SECRET) ->
  handler fetch SETUP_SECRET req w
  = catch (reconcile fetch)
      (fun e => {| code := 500; sent := ServerError e |}) w.
Proof.
  intros Hm Ha. unfold handler.
  rewrite Hm, Ha, unauthorized_bearer. reflexivity.
Qed.

(** X13. The reconciler answers 405 to a call that is not a POST and 401
    to a POST whose [authorization] header is not "Bearer " followed by the
    secret, a missing header included; in both cases nothing is sent to
    the store.  An authorized POST runs the reconciliation. *)
Theorem setup_guards (req : VercelRequest) (w : world) :
  (method req <> "POST" ->
   handler fetch SETUP_SECRET req w
   = (Ret {| code := 405; sent := Plain "Use POST" |}, w))
  /\ (method req = "POST" ->
      authorization req <> JStr ("Bearer " ++ SETUP_SECRET) ->
      handler fetch SETUP_SECRET req w
      = (Ret {| code := 401; sent := Plain "Unauthorized" |}, w))
  /\ (method req = "POST" ->
      authorization req = JStr ("Bearer " ++ SETUP_SECRET) ->
      handler fetch SETUP_SECRET req w
      = catch (reconcile fetch)
          (fun e => {| code := 500; sent := ServerError e |}) w).
Proof.
  unfold handler. split; [|split].
  - intros Hm. unfold catch.
    destruct (String.eqb_spec (method req) "POST") as [E|_];
      [contradiction | reflexivity].
  - intros Hm Ha. rewrite Hm, (unauthorized_other _ Ha). reflexivity.
  - intros Hm Ha. fold (handler fetch SETUP_SECRET req).
    now apply setup_authorized.
Qed.

(** X14. The reconciler always answers, with status 200, 400, 401, 405 or
    500.  It sends at most two requests: the lookup of the type "animal",
    then at most one of a creation of the whole catalog and an update that
    creates fields and edits none. *)
Theorem setup_always_replies (req : VercelRequest) (w : world) :
  exists rep st' requests,
    handler fetch SETUP_SECRET req w = (Ret rep, (st', snd w ++ requests))
    /\ In (code rep) [200; 400; 401; 405; 500]%Z
    /\ (requests = []
        \/ requests = [GET_DEFINITION "animal"]
        \/ requests = [GET_DEFINITION "animal";
                       CREATE_DEFINITION full_definition]
        \/ exists i ks,
             requests = [GET_DEFINITION "animal";
                         UPDATE_DEFINITION i (toCreate ks) []]
             /\ toCreate ks <> []).
Proof.
  unfold handler, catch.
  destruct (negb (method req =? "POST")%string).
  { eexists; exists (fst w), []. rewrite app_nil_r. destruct w.
    split; [reflexivity|]. split; [cbn; tauto | now left]. }
  destruct (unauthorized SETUP_SECRET (authorization req)).
  { eexists; exists (fst w), []. rewrite app_nil_r. destruct w.
    split; [reflexivity|]. split; [cbn; tauto | now left]. }
  destruct (reconcile_cases w) as (out & st' & more & -> & Hmore & Hrep).
  assert (Hreq : GET_DEFINITION "animal" :: more = []
                 \/ GET_DEFINITION "animal" :: more
                    = [GET_DEFINITION "animal"]
                 \/ GET_DEFINITION "animal" :: more
                    = [GET_DEFINITION "animal";
                       CREATE_DEFINITION full_definition]
                 \/ exists i ks,
                      GET_DEFINITION "animal" :: more
                      = [GET_DEFINITION "animal";
                         UPDATE_DEFINITION i (toCreate ks) []]
                      /\ toCreate ks <> []).
  { destruct Hmore as [->|[->|(i & ks & -> & Hne)]].
    - right. now left.
    - right. right. now left.
    - right. right. right. now exists i, ks. }
  destruct out as [rep|e].
  - exists rep, st'; eexists. split; [reflexivity|]. split; [|exact Hreq].
    destruct (Hrep rep eq_refl) as [[-> _]|[-> _]]; cbn; tauto.
  - eexists; exists st'; eexists. split; [reflexivity|].
    split; [cbn; tauto | exact Hreq].
Qed.

(** A 2xx answer is what [gql] returns, and the store moves on. *)
Lemma gql_answers (q : request) (st : Store) (log : list request)
    (j : value) :
  answers fetch st q j ->
  gql fetch q (st, log) = (Ret j, (snd (fetch st q), log ++ [q])).
Proof.
  intros (resp & Hf & Hok & Hj). unfold gql.
  destruct (fetch st q) as [res st']. cbn [fst snd] in *. subst res.
  now rewrite Hj, Hok.
Qed.

(** X15. When the lookup finds no definition, the reconciler submits the
    whole catalog in one creation, publishable, with "name" as display
    key, and sends no update.  Its reply follows the store's answer to
    that creation: when the answer lists user errors the reply is 400 with
    the step "create" and those errors, as the store gave them; when the
    list is empty or absent the reply is 200 with the definition the store
    returned; when the store fails the reconciliation throws.  The catalog
    it submits has 19 fields with pairwise different keys, and its display
    key is the key of its required field. *)
Theorem reconcile_creates (w w1 : world) (defResp : value) :
  gql fetch (GET_DEFINITION "animal") w = (Ret defResp, w1) ->
  truthy (getopt (getopt defResp "data") "metaobjectDefinitionByType")
  = false ->
  (exists out st',
      reconcile fetch w
      = (out, (st', snd w1 ++ [CREATE_DEFINITION full_definition]))
      /\ forall rep, out = Ret rep ->
           (code rep = 200%Z /\ exists c, sent rep = Created c)
           \/ (code rep = 400%Z /\
               exists errs, sent rep = StepErrors "create" errs
                            /\ truthy (getopt errs "length") = true))
  /\ (forall j,
        answers fetch (fst w1) (CREATE_DEFINITION full_definition) j ->
        (truthy (getopt (getopt (creation_part j) "userErrors") "length")
         = true ->
         fst (reconcile fetch w)
         = Ret {| code := 400;
                  sent := StepErrors "create"
                            (getopt (creation_part j) "userErrors") |})
        /\ (truthy (getopt (getopt (creation_part j) "userErrors") "length")
            = false ->
            fst (reconcile fetch w)
            = Ret {| code := 200;
                     sent := Created (getopt (creation_part j)
                                        "metaobjectDefinition") |})
        /\ (forall e es,
              getopt (creation_part j) "userErrors" = JArr (e :: es) ->
              fst (reconcile fetch w)
              = Ret {| code := 400;
                       sent := StepErrors "create" (JArr (e :: es)) |})
        /\ (getopt (creation_part j) "userErrors" = JArr []
            \/ nullish (getopt (creation_part j) "userErrors") = true ->
            fst (reconcile fetch w)
            = Ret {| code := 200;
                     sent := Created (getopt (creation_part j)
                                        "metaobjectDefinition") |}))
  /\ (store_fails fetch (fst w1) (CREATE_DEFINITION full_definition) ->
      exists e, fst (reconcile fetch w) = Throw e)
  /\ NoDup (map fd_key (dc_fieldDefinitions full_definition))
  /\ List.length (dc_fieldDefinitions full_definition) = 19
  /\ exists c, In c (dc_fieldDefinitions full_definition)
               /\ fd_key c = dc_displayNameKey full_definition
               /\ fd_required c = Some true.
Proof.
  intros Hget Hf.
  assert (Hrun : reconcile fetch w
                 = bindM (gql fetch (CREATE_DEFINITION full_definition))
                     (fun createResp =>
                        let out := creation_part createResp in
                        let errs := getopt out "userErrors" in
                        if truthy (getopt errs "length")
                        then ret {| code := 400;
                                    sent := StepErrors "create" errs |}
                        else ret {| code := 200;
                                    sent := Created
                                      (getopt out "metaobjectDefinition") |})
                     w1).
  { unfold reconcile. unfold bindM at 1. rewrite Hget, Hf. reflexivity. }
  assert (Hreply : forall j,
             answers fetch (fst w1) (CREATE_DEFINITION full_definition) j ->
             fst (reconcile fetch w)
             = Ret (if truthy (getopt (getopt (creation_part j) "userErrors")
                                      "length")
                    then {| code := 400;
                            sent := StepErrors "create"
                                      (getopt (creation_part j) "userErrors") |}
                    else {| code := 200;
                            sent := Created (getopt (creation_part j)
                                               "metaobjectDefinition") |})).
  { intros j Hj. rewrite Hrun. destruct w1 as [st1 log1]. unfold bindM.
    rewrite (gql_answers _ st1 log1 j Hj). cbv zeta.
    destruct (truthy (getopt (getopt (creation_part j) "userErrors")
                             "length")); reflexivity. }
  split; [|split; [|split; [|split; [|split]]]].
  - rewrite Hrun. unfold bindM.
    match goal with
    | |- context [gql fetch ?q ?w0] =>
        pose proof (gql_trace fetch q w0) as T;
        destruct (gql fetch q w0) as [[res|e] [st2 log2]]
    end; cbn [snd] in T; subst log2.
    + cbv zeta.
      match goal with
      | |- context [if truthy ?c then _ else _] => destruct (truthy c) eqn:Ht
      end;
        eexists; exists st2; (split; [reflexivity|]); intros rep [= <-].
      * right. split; [reflexivity|]. eexists. split; [reflexivity | exact Ht].
      * left. split; [reflexivity|]. now eexists.
    + eexists; exists st2. split; [reflexivity | intros rep [=]].
  - intros j Hj. pose proof (Hreply j Hj) as Hr.
    split; [|split; [|split]].
    + intros Ht. now rewrite Ht in Hr.
    + intros Ht. now rewrite Ht in Hr.
    + intros e es He. rewrite He in Hr. exact Hr.
    + intros [He|He].
      * rewrite He in Hr at 1. exact Hr.
      * unfold getopt at 1 in Hr. rewrite He in Hr. exact Hr.
  - intros Hfail. rewrite Hrun. destruct w1 as [st1 log1]. unfold bindM.
    destruct (gql_fails fetch _ (st1, log1) Hfail) as [e He].
    destruct (gql fetch (CREATE_DEFINITION full_definition) (st1, log1))
      as [[res|e'] w2]; cbn [fst] in He; [discriminate|].
    now exists e'.
  - apply distinct_NoDup. reflexivity.
  - reflexivity.
  - eexists. split; [left; reflexivity|]. split; reflexivity.
Qed.

Lemma keys_of_items_unreadable (items : list value) :
  (existsb nullish items = true -> keys_of_items items = Throw TypeError)
  /\ (existsb nullish items = false -> exists ks, keys_of_items items = Ret ks).
Proof.
  induction items as [|f rest [IH1 IH2]]; cbn [existsb keys_of_items].
  - split; [discriminate | now eexists].
  - unfold get. destruct (nullish f); cbn [orb bind].
    + split; [reflexivity | discriminate].
    + split.
      * intros H. now rewrite (IH1 H).
      * intros H. destruct (IH2 H) as [ks ->]. now eexists.
Qed.

(** X16. When the definition found cannot be read, its [fieldDefinitions]
    being no array or holding an undefined or null item, the reconciliation
    stops on a [TypeError] after the lookup: nothing is created or updated,
    and the handler answers 500.  Any other array is read. *)
Theorem reconcile_unreadable_definition (req : VercelRequest)
    (w w1 : world) (defResp : value) :
  gql fetch (GET_DEFINITION "animal") w = (Ret defResp, w1) ->
  let existing :=
    getopt (getopt defResp "data") "metaobjectDefinitionByType" in
  truthy existing = true ->
  (unreadable_fields (prop existing "fieldDefinitions") = true ->
   reconcile fetch w = (Throw TypeError, w1)
   /\ (method req = "POST" ->
       authorization req = JStr ("Bearer " ++ SETUP_SECRET) ->
       handler fetch SETUP_SECRET req w
       = (Ret {| code := 500; sent := ServerError TypeError |}, w1)))
  /\ (unreadable_fields (prop existing "fieldDefinitions") = false ->
      exists ks, field_keys (prop existing "fieldDefinitions") = Ret ks).
Proof.
  intros Hget existing Ht. split.
  - intros Hu.
    assert (Hk : field_keys (prop existing "fieldDefinitions")
                 = Throw TypeError).
    { unfold field_keys.
      destruct (prop existing "fieldDefinitions");
        try reflexivity.
      now apply keys_of_items_unreadable. }
    assert (Hr : reconcile fetch w = (Throw TypeError, w1)).
    { unfold reconcile, bindM. rewrite Hget. fold existing.
      rewrite Ht. cbn [negb]. rewrite Hk. reflexivity. }
    split; [exact Hr|]. intros Hm Ha.
    rewrite (setup_authorized req w Hm Ha). unfold catch.
    rewrite Hr. reflexivity.
  - intros Hu. unfold field_keys.
    destruct (prop existing "fieldDefinitions"); try discriminate Hu.
    now apply keys_of_items_unreadable.
Qed.

End ReconcilerFacts.

Lemma setup_guards_witness :
  Setup.handler Examples.unreachable_store "s3cret"
    {| Setup.method := "POST"; Setup.authorization := JUndefined |} (tt, [])
  = (Ret {| Setup.code := 401; Setup.sent := Setup.Plain "Unauthorized" |},
     (tt, [])).
Proof.
  destruct (setup_guards Examples.unreachable_store "s3cret"
              {| Setup.method := "POST"; Setup.authorization := JUndefined |}
              (tt, []))
    as (_ & H & _).
  apply H; [reflexivity | discriminate].
Defined.

Lemma reconcile_creates_witness :
  fst (Setup.reconcile AcceptingStore.fetch (None, []))
  = Ret {| Setup.code := 200;
           Setup.sent :=
             Setup.Created
               (JObj [("id", JStr AcceptingStore.fresh_id);
                      ("type", JStr "animal"); ("name", JStr "Animal");
                      ("displayNameKey", JStr "name")]) |}
  /\ fst (Setup.reconcile
            (fun (s : unit) (q : request) =>
               (Resolved
                  {| status := 200;
                     json := Some (JObj [("data",
                       JObj [("metaobjectDefinitionCreate",
                         JObj [("userErrors",
                           JArr [JObj [("message", JStr "Type taken")]])])])])
                  |}, s))
            (tt, []))
     = Ret {| Setup.code := 400;
              Setup.sent :=
                Setup.StepErrors "create"
                  (JArr [JObj [("message", JStr "Type taken")]]) |}.
Proof.
  split.
  - destruct (reconcile_creates AcceptingStore.fetch (None, [])
                (None, [GET_DEFINITION "animal"])
                (JObj [("data", JObj [("metaobjectDefinitionByType", JNull)])])
                eq_refl eq_refl) as (_ & H & _).
    refine (proj1 (proj2
              (H (JObj [("data",
                    JObj [("metaobjectDefinitionCreate",
                      JObj [("metaobjectDefinition",
                             JObj [("id", JStr AcceptingStore.fresh_id);
                                   ("type", JStr "animal");
                                   ("name", JStr "Animal");
                                   ("displayNameKey", JStr "name")]);
                            ("userErrors", JArr [])])])]) _)) _);
      [|reflexivity].
    eexists. repeat split.
  - destruct (reconcile_creates
                (fun (s : unit) (q : request) =>
                   (Resolved
                      {| status := 200;
                         json := Some (JObj [("data",
                           JObj [("metaobjectDefinitionCreate",
                             JObj [("userErrors",
                               JArr [JObj [("message",
                                            JStr "Type taken")]])])])])
                      |}, s))
                (tt, []) (tt, [GET_DEFINITION "animal"])
                (JObj [("data",
                   JObj [("metaobjectDefinitionCreate",
                     JObj [("userErrors",
                       JArr [JObj [("message", JStr "Type taken")]])])])])
                eq_refl eq_refl) as (_ & H & _).
    refine (proj1 (proj2 (proj2
              (H (JObj [("data",
                    JObj [("metaobjectDefinitionCreate",
                      JObj [("userErrors",
                        JArr [JObj [("message", JStr "Type taken")]])])])])
                 _))) _ _ _);
      [|reflexivity].
    eexists. repeat split.
Defined.

Lemma reconcile_unreadable_definition_witness :
  Setup.reconcile
    (fun (s : unit) (q : request) =>
       (Resolved
          {| status := 200;
             json := Some (JObj [("data",
                      JObj [("metaobjectDefinitionByType",
                             JObj [("id", JStr "gid://1")])])]) |}, s))
    (tt, [])
  = (Throw TypeError, (tt, [GET_DEFINITION "animal"])).
Proof.
  refine (proj1 (proj1 (reconcile_unreadable_definition _ "s3cret"
            {| Setup.method := "POST"; Setup.authorization := JNull |}
            (tt, []) (tt, [GET_DEFINITION "animal"])
            (JObj [("data",
                    JObj [("metaobjectDefinitionByType",
                           JObj [("id", JStr "gid://1")])])]) _ _) _));
    reflexivity.
Defined.

(** ** The fields to create *)

Section ToCreateFacts.

Import Setup.

(** Dropping fields from a catalog keeps its keys pairwise different. *)
Lemma kept_keys_NoDup (keep : FieldDefinition -> bool)
    (catalog : list FieldDefinition) :
  NoDup (map fd_key catalog) ->
  NoDup (map fd_key (filter keep catalog)).
Proof.
  induction catalog as [|c rest IH]; intros Hkeys; [constructor|].
  cbn [map] in Hkeys. apply NoDup_cons_iff in Hkeys as [Hfresh Hrest].
  cbn [filter]. destruct (keep c); [|now apply IH].
  cbn [map]. apply NoDup_cons; [|now apply IH].
  intros Hc. apply Hfresh.
  apply in_map_iff in Hc as (d & Hd & Hin).
  apply filter_In in Hin as [Hin _].
  rewrite <- Hd. now apply in_map.
Qed.

Lemma has_cons_other (v : value) (ks : list value) (k : string) :
  v <> JStr k -> has (v :: ks) k = has ks k.
Proof.
  intros Hv. unfold has. cbn [existsb].
  destruct v; try reflexivity.
  destruct (String.eqb_spec s k) as [->|_]; [congruence | reflexivity].
Qed.

(** X17. With no existing key the whole catalog is to be created.  The
    keys to create are pairwise different.  Adding keys to the existing
    definition can only remove fields from what is to be created.  An
    existing key that is no string, or the key of no catalog field, changes
    nothing: fields the store holds beyond the catalog are ignored. *)
Theorem toCreate_algebra :
  toCreate [] = map to_input FIELDS
  /\ (forall ks, NoDup (map fc_key (toCreate ks)))
  /\ (forall ks ks' f, In f (toCreate (ks ++ ks')) -> In f (toCreate ks))
  /\ (forall v ks,
        (forall c, In c FIELDS -> v <> JStr (fd_key c)) ->
        toCreate (v :: ks) = toCreate ks).
Proof.
  split; [reflexivity|]. split; [|split].
  - intros ks. unfold toCreate. rewrite map_map.
    change (fun x => fc_key (to_input x)) with fd_key.
    apply kept_keys_NoDup. apply distinct_NoDup. reflexivity.
  - intros ks ks' f H.
    destruct (toCreate_sound _ _ H) as (Hk & c & Hc & ->).
    apply toCreate_complete; [exact Hc|].
    change (fc_key (to_input c)) with (fd_key c) in Hk.
    rewrite has_app in Hk. now apply orb_false_iff in Hk.
  - intros v ks Hv. unfold toCreate. f_equal.
    apply filter_ext_in. intros c Hc.
    now rewrite (has_cons_other v ks (fd_key c) (Hv c Hc)).
Qed.

Lemma toCreate_algebra_witness :
  toCreate [JStr "microchip"; JNum 7; JStr "name"] = toCreate [JNum 7; JStr "name"].
Proof.
  destruct toCreate_algebra as (_ & _ & _ & H).
  apply H. intros c Hc. cbv in Hc.
  repeat (destruct Hc as [<-|Hc]; [discriminate|]). destruct Hc.
Defined.

End ToCreateFacts.

(** ** The two [gql] helpers *)

(** X18. The two helpers send the same request and leave the same store
    and log.  Whatever the TypeScript helper returns, the JavaScript helper
    returns too, and whatever the JavaScript helper throws, the TypeScript
    helper throws too; they differ exactly on an answer that is JSON with
    a status that is not 2xx, which the first throws and the second
    returns. *)
Theorem gql_refines_gql_js {Store : Type}
    (fetch : Store -> request -> fetch_result * Store)
    (q : request) (w : world) :
  snd (gql fetch q w) = snd (gql_js fetch q w)
  /\ (forall j, fst (gql fetch q w) = Ret j -> fst (gql_js fetch q w) = Ret j)
  /\ (forall e, fst (gql_js fetch q w) = Throw e ->
                fst (gql fetch q w) = Throw e)
  /\ (fst (gql fetch q w) <> fst (gql_js fetch q w) <->
      exists resp j,
        fst (fetch (fst w) q) = Resolved resp
        /\ json resp = Some j /\ ok resp = false).
Proof.
  destruct w as [st log]. unfold gql, gql_js. cbn [fst].
  destruct (fetch st q) as [[|resp] st']; cbn [fst snd].
  - repeat split; try tauto; try congruence.
    intros (resp & j & H & _). discriminate.
  - destruct (json resp) as [j|] eqn:Ej; cbn [fst snd].
    + destruct (ok resp) eqn:Hok; cbn [negb fst snd].
      * repeat split; try tauto; try congruence.
        intros (resp' & j' & [= <-] & _ & H). congruence.
      * repeat split; try tauto; try congruence; try discriminate.
        intros _. now exists resp, j.
    + repeat split; try tauto; try congruence.
      intros (resp' & j' & [= <-] & H & _). congruence.
Qed.

Lemma gql_refines_gql_js_witness :
  fst (gql_js Examples.partial_store (GET_DEFINITION "animal") (tt, []))
  = Ret Examples.errors_and_data.
Proof.
  apply (gql_refines_gql_js Examples.partial_store (GET_DEFINITION "animal")
           (tt, [])).
  reflexivity.
Defined.

(** ** Module initialisation and the JavaScript handlers *)

(** X19. Loading a TypeScript handler throws exactly when the admin token
    or the secret is unset or empty: the store domain never makes it throw,
    as an unset or empty domain is replaced by the default one.  Once the
    module is loaded the three constants are not empty, and the token and
    the secret are those of the environment. *)
Theorem load_requires_token_and_secret
    (domain token secret : option string) :
  (Env.load domain token secret = None <->
   Env.unset token = true \/ Env.unset secret = true)
  /\ (forall SHOP TOKEN SECRET,
        Env.load domain token secret = Some (SHOP, TOKEN, SECRET) ->
        SHOP <> EmptyString /\ TOKEN <> EmptyString /\ SECRET <> EmptyString
        /\ token = Some TOKEN /\ secret = Some SECRET
        /\ (Env.unset domain = true ->
            SHOP = "mission-bay-puppy-rescue.myshopify.com")
        /\ (Env.unset domain = false -> domain = Some SHOP)).
Proof.
  unfold Env.load.
  assert (Hshop : is_empty (Env.or_default domain
                              "mission-bay-puppy-rescue.myshopify.com")
                  = false).
  { destruct domain as [[|c d]|]; reflexivity. }
  rewrite Hshop. cbn [orb]. split.
  - destruct (Env.unset token), (Env.unset secret); cbn;
      split; intros H; try reflexivity; try discriminate; auto.
    destruct H; discriminate.
  - intros SHOP TOKEN SECRET.
    destruct token as [[|c t]|], secret as [[|c' s]|]; cbn;
      try discriminate.
    intros [= <- <- <-].
    repeat split; try discriminate.
    + destruct domain as [[|c0 d]|]; discriminate.
    + destruct domain as [[|c0 d]|]; cbn; intros H;
        try reflexivity; discriminate.
    + destruct domain as [[|c0 d]|]; cbn; intros H;
        try reflexivity; discriminate.
Qed.

Lemma load_requires_token_and_secret_witness :
  "mission-bay-puppy-rescue.myshopify.com" <> EmptyString
  /\ "shpat_1" <> EmptyString /\ "s3cret" <> EmptyString
  /\ Some "shpat_1" = Some "shpat_1" /\ Some "s3cret" = Some "s3cret"
  /\ (Env.unset None = true ->
      "mission-bay-puppy-rescue.myshopify.com"
      = "mission-bay-puppy-rescue.myshopify.com")
  /\ (Env.unset None = false ->
      None = Some "mission-bay-puppy-rescue.myshopify.com").
Proof.
  apply (load_requires_token_and_secret None (Some "shpat_1") (Some "s3cret")).
  reflexivity.
Defined.

(** X20. The JavaScript reconciler stub answers an authorized POST with
    status 200 and the body of the store's answer whatever its HTTP
    status, after one lookup; it has no [catch], so a rejected transport
    leaves it as an exception.  On an answer that is not 2xx the
    TypeScript handler, given the same secret, answers 500 instead.  With
    the secret unset the stub accepts the header "Bearer undefined". *)
Theorem legacy_setup_relays {Store : Type}
    (fetch : Store -> request -> fetch_result * Store)
    (SETUP_SECRET : option string) (req : Setup.VercelRequest)
    (st st' : Store) (log : list request) :
  Setup.method req = "POST" ->
  Setup.authorization req = JStr (Legacy.bearer SETUP_SECRET) ->
  (forall resp j,
      fetch st (GET_DEFINITION "animal") = (Resolved resp, st') ->
      json resp = Some j ->
      Legacy.setup_handler fetch SETUP_SECRET req (st, log)
      = (Ret {| Legacy.code := 200; Legacy.sent := Legacy.Relayed j |},
         (st', log ++ [GET_DEFINITION "animal"]))
      /\ (ok resp = false ->
          forall s, SETUP_SECRET = Some s ->
          exists e,
            Setup.handler fetch s req (st, log)
            = (Ret {| Setup.code := 500;
                      Setup.sent := Setup.ServerError e |},
               (st', log ++ [GET_DEFINITION "animal"]))))
  /\ (fetch st (GET_DEFINITION "animal") = (Rejected, st') ->
      Legacy.setup_handler fetch SETUP_SECRET req (st, log)
      = (Throw FetchRejected, (st', log ++ [GET_DEFINITION "animal"])))
  /\ (SETUP_SECRET = None ->
      Setup.authorization req = JStr "Bearer undefined").
Proof.
  intros Hm Ha.
  assert (Hgo : forall w,
             Legacy.setup_handler fetch SETUP_SECRET req w
             = bindM (gql_js fetch (GET_DEFINITION "animal"))
                 (fun resp =>
                    ret {| Legacy.code := 200;
                           Legacy.sent := Legacy.Relayed resp |}) w).
  { intros w. unfold Legacy.setup_handler. rewrite Hm, Ha.
    unfold Legacy.bearer. cbn [String.eqb Ascii.eqb negb truthy append
                                is_empty Bool.eqb].
    rewrite String.eqb_refl. reflexivity. }
  split; [|split].
  - intros resp j Hf Hj. split.
    + rewrite Hgo. unfold bindM, gql_js. rewrite Hf, Hj. reflexivity.
    + intros Hok s ->. cbn [Legacy.bearer] in Ha.
      rewrite (setup_authorized fetch s req (st, log) Hm Ha).
      unfold catch, Setup.reconcile, bindM, gql.
      rewrite Hf, Hj, Hok. cbn [negb]. eexists. reflexivity.
  - intros Hf. rewrite Hgo. unfold bindM, gql_js. rewrite Hf. reflexivity.
  - intros ->. exact Ha.
Qed.

Lemma legacy_setup_relays_witness :
  Legacy.setup_handler
    (fun (s : unit) (q : request) =>
       (Resolved {| status := 401;
                    json := Some (JObj [("errors", JStr "Invalid token")]) |},
        s))
    None
    {| Setup.method := "POST";
       Setup.authorization := JStr "Bearer undefined" |} (tt, [])
  = (Ret {| Legacy.code := 200;
            Legacy.sent :=
              Legacy.Relayed (JObj [("errors", JStr "Invalid token")]) |},
     (tt, [] ++ [GET_DEFINITION "animal"])).
Proof.
  refine (proj1 (proj1 (legacy_setup_relays _ None
            {| Setup.method := "POST";
               Setup.authorization := JStr "Bearer undefined" |}
            tt tt [] _ _)
            {| status := 401;
               json := Some (JObj [("errors", JStr "Invalid token")]) |}
            (JObj [("errors", JStr "Invalid token")]) _ _));
    reflexivity.
Defined.

(** X21. The JavaScript ingestion stub answers 200, echoing the body it
    received, exactly for a POST whose [x-webhook-secret] header is the
    secret, the secret being set and not empty; with the secret unset it
    accepts no call.  It rejects exactly the calls the TypeScript handler
    rejects on its guards, with the same replies. *)
Theorem legacy_cognito_guards {Store : Type}
    (fetch : Store -> request -> fetch_result * Store)
    (WEBHOOK_SECRET : option string) (req : Cognito.VercelRequest)
    (w : world) :
  (Legacy.code (Legacy.cognito_handler WEBHOOK_SECRET req) = 200%Z <->
   Cognito.method req = "POST"
   /\ exists s, WEBHOOK_SECRET = Some s /\ s <> EmptyString
                /\ Cognito.x_webhook_secret req = JStr s)
  /\ (Legacy.code (Legacy.cognito_handler WEBHOOK_SECRET req) = 200%Z ->
      Legacy.sent (Legacy.cognito_handler WEBHOOK_SECRET req)
      = Legacy.Received (Cognito.req_body req))
  /\ (forall s text,
        WEBHOOK_SECRET = Some s ->
        Legacy.code (Legacy.cognito_handler WEBHOOK_SECRET req) <> 200%Z ->
        Legacy.sent (Legacy.cognito_handler WEBHOOK_SECRET req)
        = Legacy.Plain text ->
        Cognito.handler fetch s req w
        = (Ret {| Cognito.code :=
                    Legacy.code (Legacy.cognito_handler WEBHOOK_SECRET req);
                  Cognito.sent := Cognito.Plain text |}, w)).
Proof.
  unfold Legacy.cognito_handler, Cognito.handler, catch.
  destruct (String.eqb_spec (Cognito.method req) "POST") as [Hm|Hm];
    cbn [negb].
  2:{ cbn [Legacy.code Legacy.sent]. split; [|split].
      - split; [discriminate | intros [H _]; contradiction].
      - discriminate.
      - intros s text _ _ [= <-]. reflexivity. }
  destruct WEBHOOK_SECRET as [s|].
  - destruct (negb (truthy (Cognito.x_webhook_secret req))
              || negb (Cognito.is_string_equal
                         (Cognito.x_webhook_secret req) s)) eqn:Hg;
      cbn [Legacy.code Legacy.sent].
    + split; [|split].
      * split; [discriminate|].
        intros (_ & s' & [= <-] & Hne & Hs). exfalso.
        rewrite Hs in Hg. cbn in Hg. rewrite String.eqb_refl in Hg.
        destruct s; [congruence | discriminate].
      * discriminate.
      * intros s' text [= <-] _ [= <-]. rewrite Hg. reflexivity.
    + apply orb_false_iff in Hg as [Ht He].
      apply negb_false_iff in Ht, He.
      split; [|split].
      * split; [|reflexivity]. intros _. split; [exact Hm|].
        exists s. split; [reflexivity|].
        destruct (Cognito.x_webhook_secret req); try discriminate He.
        cbn in He. apply String.eqb_eq in He. subst s.
        split; [|reflexivity]. intros ->. discriminate.
      * reflexivity.
      * intros s' text _ H. contradiction.
  - rewrite orb_true_r. cbn [Legacy.code Legacy.sent]. split; [|split].
    + split; [discriminate | intros (_ & s & H & _); discriminate].
    + discriminate.
    + intros s text H. discriminate.
Qed.

Lemma legacy_cognito_guards_witness :
  Cognito.handler Examples.unreachable_store "s3cret"
    {| Cognito.method := "PUT";
       Cognito.x_webhook_secret := JStr "s3cret";
       Cognito.req_body := JNull |} (tt, [])
  = (Ret {| Cognito.code := 405;
            Cognito.sent := Cognito.Plain "Method Not Allowed" |}, (tt, [])).
Proof.
  refine (proj2 (proj2 (legacy_cognito_guards Examples.unreachable_store
            (Some "s3cret")
            {| Cognito.method := "PUT";
               Cognito.x_webhook_secret := JStr "s3cret";
               Cognito.req_body := JNull |} (tt, [])))
            "s3cret" "Method Not Allowed" _ _ _);
    [reflexivity | discriminate | reflexivity].
Defined.

(** ** The outcome of an upsert *)

Section UpsertOutcome.

Import Cognito.

Context {Store : Type}.
Variable fetch : Store -> request -> fetch_result * Store.

(** The upsert is the call of [gql] that follows the uploads. *)
Lemma upsert_last_call (r : NormalizedRecord) (w : world) :
  exists fields st2 uploads,
    upsert fetch r w
    = bindM (gql fetch (UPSERT (externalId r) (name r) fields
                          (publishStatus r)))
        (fun result =>
           let out := getopt (getopt result "data") "metaobjectUpsert" in
           let err := getopt (getopt out "userErrors") "0" in
           if truthy err then ret {| code := 400; sent := UserError err |}
           else ret {| code := 200;
                       sent := Upserted (getopt (getopt out "metaobject") "id")
                                 (externalId r) (publishStatus r) |})
        (st2, snd w ++ uploads).
Proof.
  unfold upsert. unfold bindM at 1.
  destruct (upload_primary_trace fetch r (base_fields r) w)
    as (image & st1 & -> & _).
  unfold bindM at 1.
  destruct (upload_gallery_trace fetch r (base_fields r ++ image)
              (st1, snd w ++ primary_requests r))
    as (gallery & st2 & -> & _).
  cbn [snd].
  exists ((base_fields r ++ image) ++ gallery), st2,
    (primary_requests r
     ++ map file_request (filter is_http_url (firstn 12 (galleryUrls r)))).
  rewrite (app_assoc (snd w)). reflexivity.
Qed.

Lemma gql_world (q : request) (st : Store) (log : list request) :
  snd (gql fetch q (st, log)) = (snd (fetch st q), log ++ [q]).
Proof.
  unfold gql. destruct (fetch st q) as [[|resp] st']; [reflexivity|].
  destruct (json resp); [|reflexivity].
  destruct (negb (ok resp)); reflexivity.
Qed.

(** X22. The reply to a normalized record follows the store's answer to
    the upsert, whatever happened to the uploads.  The upsert is the last
    request, sent in some store state reached by the uploads.  If the
    store answers it there with status 2xx, the reply is 400 with the first
    user error of the answer when that is truthy, and otherwise 200 with
    the identifier found in the answer and the handle and status of the
    record; if the store fails on it, the reply is 500.  In particular a
    store that answers every upsert with one and the same body gets the
    reply that body calls for. *)
Theorem upsert_outcome (WEBHOOK_SECRET : string) (req : VercelRequest)
    (r : NormalizedRecord) (w : world) :
  method req = "POST" ->
  x_webhook_secret req = JStr WEBHOOK_SECRET ->
  WEBHOOK_SECRET <> EmptyString ->
  normalize (payload_of (req_body req)) = Ret (Some r) ->
  (exists st2 fields uploads,
      let q := UPSERT (externalId r) (name r) fields (publishStatus r) in
      snd (handler fetch WEBHOOK_SECRET req w)
      = (snd (fetch st2 q), snd w ++ uploads ++ [q])
      /\ (forall j,
            answers fetch st2 q j ->
            (truthy (first_user_error j) = true ->
             fst (handler fetch WEBHOOK_SECRET req w)
             = Ret {| code := 400;
                      sent := UserError (first_user_error j) |})
            /\ (truthy (first_user_error j) = false ->
                fst (handler fetch WEBHOOK_SECRET req w)
                = Ret {| code := 200;
                         sent := Upserted (upserted_id j) (externalId r)
                                   (publishStatus r) |}))
      /\ (store_fails fetch st2 q ->
          exists e,
            fst (handler fetch WEBHOOK_SECRET req w)
            = Ret {| code := 500; sent := ServerError e |}))
  /\ (forall j,
        (forall st q, is_upsert q = true -> answers fetch st q j) ->
        (truthy (first_user_error j) = true ->
         fst (handler fetch WEBHOOK_SECRET req w)
         = Ret {| code := 400; sent := UserError (first_user_error j) |})
        /\ (truthy (first_user_error j) = false ->
            fst (handler fetch WEBHOOK_SECRET req w)
            = Ret {| code := 200;
                     sent := Upserted (upserted_id j) (externalId r)
                               (publishStatus r) |}))
  /\ ((forall st q, is_upsert q = true -> store_fails fetch st q) ->
      exists e,
        fst (handler fetch WEBHOOK_SECRET req w)
        = Ret {| code := 500; sent := ServerError e |}).
Proof.
  intros Hm Hs Hne Hn.
  assert (Hmain : exists st2 fields uploads,
      let q := UPSERT (externalId r) (name r) fields (publishStatus r) in
      snd (handler fetch WEBHOOK_SECRET req w)
      = (snd (fetch st2 q), snd w ++ uploads ++ [q])
      /\ (forall j,
            answers fetch st2 q j ->
            (truthy (first_user_error j) = true ->
             fst (handler fetch WEBHOOK_SECRET req w)
             = Ret {| code := 400;
                      sent := UserError (first_user_error j) |})
            /\ (truthy (first_user_error j) = false ->
                fst (handler fetch WEBHOOK_SECRET req w)
                = Ret {| code := 200;
                         sent := Upserted (upserted_id j) (externalId r)
                                   (publishStatus r) |}))
      /\ (store_fails fetch st2 q ->
          exists e,
            fst (handler fetch WEBHOOK_SECRET req w)
            = Ret {| code := 500; sent := ServerError e |})).
  { rewrite (guards_pass fetch WEBHOOK_SECRET req Hm Hs Hne w), Hn.
    unfold catch.
    destruct (upsert_last_call r w) as (fields & st2 & uploads & ->).
    exists st2, fields, uploads. cbv zeta.
    set (q := UPSERT (externalId r) (name r) fields (publishStatus r)).
    split; [|split].
    - unfold bindM.
      pose proof (gql_world q st2 (snd w ++ uploads)) as T.
      destruct (gql fetch q (st2, snd w ++ uploads)) as [[res|e] w3];
        cbn [snd] in T; subst w3.
      + match goal with
        | |- context [if truthy ?c then _ else _] => destruct (truthy c)
        end; cbn [ret snd]; now rewrite <- app_assoc.
      + cbn [snd]. now rewrite <- app_assoc.
    - intros j Hj. unfold bindM.
      rewrite (gql_answers fetch q st2 (snd w ++ uploads) j Hj).
      unfold first_user_error, upserted_id.
      split; intros Ht; rewrite Ht; reflexivity.
    - intros Hfail. unfold bindM.
      destruct (gql_fails fetch q (st2, snd w ++ uploads) Hfail) as [e He].
      destruct (gql fetch q (st2, snd w ++ uploads)) as [[res|e'] w3];
        cbn [fst] in He; [discriminate|].
      eexists. reflexivity. }
  split; [exact Hmain|].
  destruct Hmain as (st2 & fields & uploads & _ & Hans & Hfail).
  split.
  - intros j Hall. apply Hans. now apply Hall.
  - intros Hall. apply Hfail. now apply Hall.
Qed.

(** X23. The handle of the upsert depends on the trimmed text of the
    identity alone: two payloads whose first populated identity aliases
    have texts that agree once trimmed are normalized to the same
    externalId, whichever alias holds the value and whether it is a string
    or a number. *)
Theorem handle_stable (p p' : value) (r r' : NormalizedRecord)
    (v v' : value) (s s' : string) :
  normalize p = Ret (Some r) ->
  normalize p' = Ret (Some r') ->
  first_populated p MAP.externalId = Some v ->
  first_populated p' MAP.externalId = Some v' ->
  ToString v = Ret s ->
  ToString v' = Ret s' ->
  trim s = trim s' ->
  externalId r = externalId r'.
Proof.
  intros Hr Hr' Hv Hv' Hs Hs' Ht.
  destruct (normalize_fields _ _ Hr) as ((t & H & -> & _) & _).
  destruct (normalize_fields _ _ Hr') as ((t' & H' & -> & _) & _).
  apply pick_string_chosen in H, H'.
  rewrite Hv in H. rewrite Hv' in H'. cbn in H, H'.
  congruence.
Qed.

End UpsertOutcome.

Lemma upsert_outcome_witness :
  fst (Cognito.handler Examples.partial_store "s3cret" Examples.rex_request
         (tt, []))
  = Ret {| Cognito.code := 200;
           Cognito.sent :=
             Cognito.Upserted (upserted_id Examples.errors_and_data)
               (Cognito.externalId Examples.rex)
               (Cognito.publishStatus Examples.rex) |}
  /\ fst (Cognito.handler
            (fun (s : unit) (q : request) =>
               (Resolved
                  {| status := 200;
                     json := Some (JObj [("data",
                       JObj [("metaobjectUpsert",
                         JObj [("userErrors",
                           JArr [JObj [("message", JStr "Taken")]])])])]) |},
                s))
            "s3cret" Examples.rex_request (tt, []))
     = Ret {| Cognito.code := 400;
              Cognito.sent :=
                Cognito.UserError (JObj [("message", JStr "Taken")]) |}.
Proof.
  assert (Hne : "s3cret" <> EmptyString) by discriminate.
  split.
  - destruct (upsert_outcome Examples.partial_store "s3cret"
                Examples.rex_request Examples.rex (tt, [])
                eq_refl eq_refl Hne eq_refl) as (_ & H & _).
    apply (H Examples.errors_and_data); [|reflexivity].
    intros st q _. eexists. repeat split.
  - destruct (upsert_outcome
                (fun (s : unit) (q : request) =>
                   (Resolved
                      {| status := 200;
                         json := Some (JObj [("data",
                           JObj [("metaobjectUpsert",
                             JObj [("userErrors",
                               JArr [JObj [("message", JStr "Taken")]])])])])
                      |}, s))
                "s3cret" Examples.rex_request Examples.rex (tt, [])
                eq_refl eq_refl Hne eq_refl) as (_ & H & _).
    apply (H (JObj [("data",
                JObj [("metaobjectUpsert",
                  JObj [("userErrors",
                    JArr [JObj [("message", JStr "Taken")]])])])]));
      [|reflexivity].
    intros st q _. eexists. repeat split.
Defined.

Lemma handle_stable_witness :
  Cognito.externalId Examples.rex = Cognito.externalId Examples.rex.
Proof.
  apply (handle_stable Examples.rex_payload
           (JObj [("Number", JNum 42); ("Entry ID", JStr "  ");
                  ("Name", JStr "Rex"); ("Status", JStr "AVAILABLE");
                  ("Good With Kids", JStr "true")])
           Examples.rex Examples.rex (JStr "42") (JNum 42) "42" "42");
    reflexivity.
Defined.
